(** * Utils::Random::rand  (src/base/utils/random.cpp)

    A shallow embedding of qBittorrent's process-wide random integer
    generator and of the three build-time variants of its entropy source
    [RandomLayer], followed by the properties the specification states
    about them.

    Conventions
    - [uint32_t] values are integers in [[0, 2^32)]; every C++ operation
      that can wrap is written with its reduction ([wrap32], [wrap64]).
    - The operating system is an oracle: a process carries the list of
      replies the OS is going to give, and a log of the calls it has made
      together with the reply each one received.
    - [qFatal] never returns: it ends the run with outcome [Fatal]. *)

From Stdlib Require Import ZArith List String Bool Lia.
Import ListNotations.
Local Open Scope string_scope.
Local Open Scope list_scope.
Local Open Scope Z_scope.

(** ** Fixed-width unsigned arithmetic *)

Definition UINT32_MAX : Z := 4294967295.

Definition wrap32 (z : Z) : Z := z mod 2 ^ 32.
Definition wrap64 (z : Z) : Z := z mod 2 ^ 64.

(** [std::numeric_limits<uint32_t>::min()] and [max()]. *)
Definition numeric_limits_min : Z := 0.
Definition numeric_limits_max : Z := UINT32_MAX.

Definition is_uint32 (z : Z) : Prop := 0 <= z <= UINT32_MAX.

(** ** The boundary with the operating system *)

(** The calls the three variants of [RandomLayer] make, with the arguments
    the source passes.  A buffer argument is represented by its size only:
    the bytes the OS stores in it come back in the reply. *)
Inductive os_call : Type :=
| LoadWinAPI (dll symbol : string)        (* loadWinAPI<T>(dll, symbol) *)
| ProcessPrng (fn : Z) (cbData : Z)       (* m_processPrng(&buf, cbData) *)
| Getrandom (buflen : Z) (flags : Z)      (* ::getrandom(&buf, buflen, flags) *)
| Fopen (path mode : string)              (* fopen(path, mode) *)
| Fread (size nmemb : Z) (stream : Z)     (* fread(&buf, size, nmemb, stream) *)
| Fclose (stream : Z).                    (* fclose(stream) *)

(** What a call gives back: its return value (a pointer is an integer, 0
    being null), the content of the 4-byte buffer after the call read as a
    [uint32_t], and the value of [errno] after the call. *)
Record os_reply : Type := Reply {
  r_ret : Z;
  r_buf : Z;
  r_errno : Z
}.

Definition entry : Type := (os_call * os_reply)%type.

(** ** qFatal messages

    A message is kept as the format string of the source and the
    arguments passed with it; [std::strerror] is not interpreted. *)
Inductive qarg : Type :=
| ArgStrerror (code : Z)                  (* %s  <-  std::strerror(errno) *)
| ArgInt (code : Z).                      (* %d  <-  errno *)

Record fatal_message : Type := Message {
  m_format : string;
  m_args : list qarg
}.

(** ** Outcomes and the monad the code runs in

    The state type is a parameter, as the generator type is a template
    parameter of the distribution. *)
Inductive outcome (S A : Type) : Type :=
| Returned (a : A) (s : S)                (* normal return *)
| Fatal (m : fatal_message) (s : S)       (* qFatal: the process is gone *)
| Starved (s : S).                        (* the model has no reply left *)

Arguments Returned {S A} a s.
Arguments Fatal {S A} m s.
Arguments Starved {S A} s.

Definition M (S A : Type) : Type := S -> outcome S A.

Definition mret {S A : Type} (a : A) : M S A := fun s => Returned a s.

Definition bind {S A B : Type} (c : M S A) (k : A -> M S B) : M S B :=
  fun s =>
    match c s with
    | Returned a s' => k a s'
    | Fatal m s' => Fatal m s'
    | Starved s' => Starved s'
    end.

Definition qFatal {S A : Type} (fmt : string) (args : list qarg) : M S A :=
  fun s => Fatal (Message fmt args) s.

Definition starve {S A : Type} : M S A := fun s => Starved s.

Declare Scope monad_scope.
Delimit Scope monad_scope with monad.
Notation "x <- c ;; k" := (bind c (fun x => k))
  (at level 61, c at next level, right associativity) : monad_scope.
Local Open Scope monad_scope.

Definition final_state {S A : Type} (o : outcome S A) : S :=
  match o with
  | Returned _ s => s
  | Fatal _ s => s
  | Starved s => s
  end.

(** ** The process *)

Inductive platform : Type :=
| Windows                                 (* Q_OS_WIN *)
| Linux                                   (* Q_OS_LINUX *)
| Posix.                                  (* #else *)

(** The data members of the three [RandomLayer] classes. *)
Inductive RandomLayer : Type :=
| WinLayer (m_processPrng : Z)
| LinuxLayer
| PosixLayer (m_randDev : Z).

Definition layer_platform (l : RandomLayer) : platform :=
  match l with
  | WinLayer _ => Windows
  | LinuxLayer => Linux
  | PosixLayer _ => Posix
  end.

(** [layer] is the function-local [static RandomLayer layer;] of [rand],
    [None] until it has been constructed; [script] holds the replies the
    OS will give, in order; [trace] is the log of the calls made so far,
    oldest first. *)
Record process : Type := Process {
  layer : option RandomLayer;
  script : list os_reply;
  trace : list entry
}.

(** One call into the OS: takes the next reply and logs the exchange. *)
Definition os (c : os_call) : M process os_reply :=
  fun s =>
    match script s with
    | [] => Starved s
    | r :: rest => Returned r (Process (layer s) rest (trace s ++ [(c, r)]))
    end.

(** ** RandomLayer *)

Definition RETRY_MAX : nat := 3.

Definition RandomLayer_min : Z := numeric_limits_min.
Definition RandomLayer_max : Z := numeric_limits_max.

(** Modelled from the spec: [Utils::OS::loadWinAPI] is declared in
    base/utils/os.h, which is not under src/.  The specification has it
    as "a dynamic-library symbol resolution facility:
    [loadSymbol(library name, symbol name) -> function pointer or null]";
    it is an exchange with the OS whose reply is the pointer. *)
Definition loadWinAPI (dll symbol : string) : M process Z :=
  r <- os (LoadWinAPI dll symbol) ;;
  mret (r_ret r).

(** The constructors. *)
Definition RandomLayer_ctor (p : platform) : M process RandomLayer :=
  match p with
  | Windows =>
      m_processPrng <- loadWinAPI "BCryptPrimitives.dll" "ProcessPrng" ;;
      if m_processPrng =? 0
      then qFatal "Failed to load ProcessPrng()." []
      else mret (WinLayer m_processPrng)
  | Linux => mret LinuxLayer
  | Posix =>
      r <- os (Fopen "/dev/urandom" "rb") ;;
      if r_ret r =? 0
      then qFatal "Failed to open /dev/urandom. Reason: %s. Error code: %d."
                  [ArgStrerror (r_errno r); ArgInt (r_errno r)]
      else mret (PosixLayer (r_ret r))
  end.

(** The destructor: only the fallback variant declares one. *)
Definition RandomLayer_dtor (l : RandomLayer) : M process unit :=
  match l with
  | PosixLayer m_randDev => _ <- os (Fclose m_randDev) ;; mret tt
  | _ => mret tt
  end.

(** The body of the [for] loop of the Linux [operator()]; [n] is the
    number of iterations left, [RETRY_MAX - i].  [result == sizeof(buf)]
    compares a [ssize_t] with the [size_t] 4, which holds exactly when
    [result] is 4. *)
Fixpoint getrandom_loop (n : nat) : M process Z :=
  match n with
  | O => qFatal "getrandom() failed. Reason: too many retries." []
  | S n' =>
      r <- os (Getrandom 4 0) ;;
      if r_ret r =? 4
      then mret (wrap32 (r_buf r))
      else if r_ret r <? 0
           then qFatal "getrandom() error. Reason: %s. Error code: %d."
                       [ArgStrerror (r_errno r); ArgInt (r_errno r)]
           else getrandom_loop n'
  end.

(** [RandomLayer::operator()]. *)
Definition RandomLayer_call (l : RandomLayer) : M process Z :=
  match l with
  | WinLayer m_processPrng =>
      r <- os (ProcessPrng m_processPrng 4) ;;
      if r_ret r =? 0
      then qFatal "ProcessPrng() failed." []
      else mret (wrap32 (r_buf r))
  | LinuxLayer => getrandom_loop RETRY_MAX
  | PosixLayer m_randDev =>
      r <- os (Fread 4 1 m_randDev) ;;
      if negb (r_ret r =? 1)
      then qFatal "Read /dev/urandom error. Reason: %s. Error code: %d."
                  [ArgStrerror (r_errno r); ArgInt (r_errno r)]
      else mret (wrap32 (r_buf r))
  end.

(** ** std::uniform_int_distribution<uint32_t> *)

(** Modelled from the spec: [std::uniform_int_distribution] is the C++
    standard library's and no part of it is under src/; the specification
    calls it a "standard rejection-based remapping to avoid modulo bias".
    libstdc++ has two such remappings: the multiply-and-shift one of
    [_S_nd] (taken when the generator yields exactly 32 bits and a 64-bit
    type exists) and the one with two divisions (the fallback, and the
    only one in older releases).  Which one is compiled is fixed at build
    time. *)
Inductive remapping : Type :=
| NearlyDivisionless
| TwoDivisions.

Section Distribution.

Context {St : Type}.

(** The generator the distribution is instantiated with: [__urng()]. *)
Variable urng : M St Z.

Definition urngmin : Z := RandomLayer_min.
Definition urngmax : Z := RandomLayer_max.
Definition urngrange : Z := urngmax - urngmin.

(** Modelled from the spec: the rejection loop
    [while (__low < __threshold)] of libstdc++'s [_S_nd], which is not
    under src/; [product] is the 64-bit [__product], and [__low] is its
    low half. *)
Fixpoint S_nd_while (fuel : nat) (range threshold product : Z)
  {struct fuel} : M St Z :=
  if wrap32 product <? threshold
  then match fuel with
       | O => starve
       | S fuel' =>
           x <- urng ;;
           S_nd_while fuel' range threshold (wrap64 (x * range))
       end
  else mret product.

(** Modelled from the spec: libstdc++'s [_S_nd<uint64_t>(__g, __range)],
    which is not under src/: the remapping of a draw to [[0, __range)] by
    the high half of a 64-bit product, a draw being rejected when the low
    half is below [-__range % __range]. *)
Definition S_nd (fuel : nat) (range : Z) : M St Z :=
  x <- urng ;;
  let product := wrap64 (x * range) in
  let low := wrap32 product in
  product' <- (if low <? range
               then let threshold := wrap32 (- range) mod range in
                    S_nd_while fuel range threshold product
               else mret product) ;;
  mret (wrap32 (Z.shiftr product' 32)).

(** Modelled from the spec: the rejection loop
    [do __ret = __urng() - __urngmin; while (__ret >= __past);] of
    libstdc++'s remapping with two divisions, which is not under src/. *)
Fixpoint two_div_do_while (fuel : nat) (past : Z) {struct fuel} : M St Z :=
  match fuel with
  | O => starve
  | S fuel' =>
      x <- urng ;;
      let ret := wrap32 (x - urngmin) in
      if ret >=? past then two_div_do_while fuel' past else mret ret
  end.

(** Modelled from the spec: [std::uniform_int_distribution<uint32_t>] is
    the C++ standard library's and no part of it is under src/.  The
    specification has it "draw one or more raw values from the shared
    source as needed by the distribution algorithm (standard
    rejection-based remapping to avoid modulo bias)" and return "the
    integer in [min, max]".  The model is [operator()] of libstdc++ at
    result type [uint32_t] for a generator whose range is
    [[0, 2^32 - 1]], with either of its two remappings; [a] and [b] are
    the parameters the distribution was constructed with (the
    assertion [a <= b] of its constructor is compiled out unless
    [_GLIBCXX_ASSERTIONS] is defined, and is not modelled).  The branch
    for a generator narrower than the requested range is not taken at
    these types ([urange_le_urngrange]) and is left out.  [fuel] bounds
    the number of rejected draws. *)
Definition uniform_int_distribution_call
    (d : remapping) (a b : Z) (fuel : nat) : M St Z :=
  let urange := wrap32 (b - a) in
  ret <- (if urngrange >? urange
          then (* downscaling *)
            let uerange := wrap32 (urange + 1) in
            match d with
            | NearlyDivisionless => S_nd fuel uerange
            | TwoDivisions =>
                let scaling := urngrange / uerange in
                let past := wrap32 (uerange * scaling) in
                ret <- two_div_do_while fuel past ;;
                mret (ret / scaling)
            end
          else
            x <- urng ;;
            mret (wrap32 (x - urngmin))) ;;
  mret (wrap32 (ret + a)).

End Distribution.

(** ** Utils::Random::rand *)

(** [static RandomLayer layer;]: constructed by the first call that
    reaches the declaration, reused by every later one. *)
Definition static_layer (p : platform) : M process RandomLayer :=
  fun s =>
    match layer s with
    | Some l => Returned l s
    | None =>
        match RandomLayer_ctor p s with
        | Returned l s' => Returned l (Process (Some l) (script s') (trace s'))
        | Fatal m s' => Fatal m s'
        | Starved s' => Starved s'
        end
    end.

(** Every draw takes at least one reply off the script, so one more than
    its length is fuel enough ([draws_within_fuel]). *)
Definition rand (p : platform) (d : remapping) (min max : Z) : M process Z :=
  l <- static_layer p ;;
  fun s =>
    uniform_int_distribution_call (RandomLayer_call l) d min max
      (S (List.length (script s))) s.

(** The process: a series of calls of [rand], then a normal exit, which
    destroys the static object if it was constructed. *)
Fixpoint rands (p : platform) (d : remapping) (reqs : list (Z * Z))
  : M process (list Z) :=
  match reqs with
  | [] => mret []
  | (min, max) :: reqs' =>
      v <- rand p d min max ;;
      vs <- rands p d reqs' ;;
      mret (v :: vs)
  end.

Definition process_exit : M process unit :=
  fun s =>
    match layer s with
    | Some l => RandomLayer_dtor l s
    | None => Returned tt s
    end.

Definition run (p : platform) (d : remapping) (reqs : list (Z * Z))
  : M process (list Z) :=
  vs <- rands p d reqs ;;
  _ <- process_exit ;;
  mret vs.

(** A process that has not called [rand] yet. *)
Definition boot (replies : list os_reply) : process :=
  Process None replies [].

(** A generator that reads its draws off a list, for running the
    distribution on values alone. *)
Definition list_urng : M (list Z) Z :=
  fun ds =>
    match ds with
    | [] => Starved []
    | x :: rest => Returned (wrap32 x) rest
    end.

(** * The vocabulary of the properties *)

(** ** Outcomes and runs of a generator *)

Definition not_starved {S A : Type} (o : outcome S A) : Prop :=
  match o with
  | Starved _ => False
  | _ => True
  end.

(** [draws urng s ds s']: from [s], successive calls of the generator
    [urng] return the values [ds] and leave the state [s']. *)
Inductive draws {St : Type} (urng : M St Z) : St -> list Z -> St -> Prop :=
| draws_nil (s : St) : draws urng s [] s
| draws_cons (s : St) (x : Z) (s1 : St) (ds : list Z) (s2 : St) :
    urng s = Returned x s1 -> draws urng s1 ds s2 ->
    draws urng s (x :: ds) s2.

(** Where an outcome comes from: a series of successful draws, ended by
    the return, by a draw that aborted, or by the lack of a further
    reply (or of fuel, after at least [fuel] draws). *)
Definition shape {St : Type} (urng : M St Z) {A : Type} (fuel : nat)
    (s : St) (o : outcome St A) : Prop :=
  exists ds s1,
    draws urng s ds s1 /\
    match o with
    | Returned _ s' => s' = s1
    | Fatal m s' => urng s1 = Fatal m s'
    | Starved s' =>
        urng s1 = Starved s' \/ (s' = s1 /\ (fuel <= List.length ds)%nat)
    end.

(** ** What the process exchanges with the operating system *)

(** [logged s es s']: running from [s] to [s'] made the calls [es] and
    took their replies off the script, in order. *)
Definition logged (s : process) (es : list entry) (s' : process) : Prop :=
  trace s' = trace s ++ es /\ script s = map snd es ++ script s'.

(** [extends s es s']: the same, and the static object is as it was. *)
Definition extends (s : process) (es : list entry) (s' : process) : Prop :=
  layer s' = layer s /\ logged s es s'.

(** The shapes a single draw can have, per variant, in the words of the
    specification: a short read is a non-negative result other than 4. *)
Definition short_read (r : os_reply) : Prop := 0 <= r_ret r /\ r_ret r <> 4.

Definition getrandom_entries (rs : list os_reply) : list entry :=
  map (fun r => (Getrandom 4 0, r)) rs.

(** A draw that returned [x]. *)
Inductive segment : RandomLayer -> Z -> list entry -> Prop :=
| seg_win fn r :
    r_ret r <> 0 ->
    segment (WinLayer fn) (wrap32 (r_buf r)) [(ProcessPrng fn 4, r)]
| seg_linux shorts r :
    Forall short_read shorts -> (List.length shorts < RETRY_MAX)%nat ->
    r_ret r = 4 ->
    segment LinuxLayer (wrap32 (r_buf r))
      (getrandom_entries shorts ++ [(Getrandom 4 0, r)])
| seg_posix f r :
    r_ret r = 1 ->
    segment (PosixLayer f) (wrap32 (r_buf r)) [(Fread 4 1 f, r)].

(** A draw that ended in [qFatal]. *)
Inductive aborted : RandomLayer -> fatal_message -> list entry -> Prop :=
| ab_win fn r :
    r_ret r = 0 ->
    aborted (WinLayer fn) (Message "ProcessPrng() failed." [])
      [(ProcessPrng fn 4, r)]
| ab_linux_error shorts r :
    Forall short_read shorts -> (List.length shorts < RETRY_MAX)%nat ->
    r_ret r < 0 ->
    aborted LinuxLayer
      (Message "getrandom() error. Reason: %s. Error code: %d."
         [ArgStrerror (r_errno r); ArgInt (r_errno r)])
      (getrandom_entries shorts ++ [(Getrandom 4 0, r)])
| ab_linux_retries shorts :
    Forall short_read shorts -> List.length shorts = RETRY_MAX ->
    aborted LinuxLayer
      (Message "getrandom() failed. Reason: too many retries." [])
      (getrandom_entries shorts)
| ab_posix f r :
    r_ret r <> 1 ->
    aborted (PosixLayer f)
      (Message "Read /dev/urandom error. Reason: %s. Error code: %d."
         [ArgStrerror (r_errno r); ArgInt (r_errno r)])
      [(Fread 4 1 f, r)].

(** A draw the model could not finish for lack of a reply. *)
Inductive pending : RandomLayer -> list entry -> Prop :=
| pend_win fn : pending (WinLayer fn) []
| pend_linux shorts :
    Forall short_read shorts -> (List.length shorts < RETRY_MAX)%nat ->
    pending LinuxLayer (getrandom_entries shorts)
| pend_posix f : pending (PosixLayer f) [].

(** A series of completed draws. *)
Inductive segments (l : RandomLayer) : list Z -> list entry -> Prop :=
| segs_nil : segments l [] []
| segs_cons x es ds es' :
    segment l x es -> segments l ds es' -> segments l (x :: ds) (es ++ es').

(** Construction of the static object. *)
Inductive constructed : platform -> RandomLayer -> list entry -> Prop :=
| con_win r :
    r_ret r <> 0 ->
    constructed Windows (WinLayer (r_ret r))
      [(LoadWinAPI "BCryptPrimitives.dll" "ProcessPrng", r)]
| con_linux : constructed Linux LinuxLayer []
| con_posix r :
    r_ret r <> 0 ->
    constructed Posix (PosixLayer (r_ret r)) [(Fopen "/dev/urandom" "rb", r)].

Inductive ctor_aborted : platform -> fatal_message -> list entry -> Prop :=
| cab_win r :
    r_ret r = 0 ->
    ctor_aborted Windows (Message "Failed to load ProcessPrng()." [])
      [(LoadWinAPI "BCryptPrimitives.dll" "ProcessPrng", r)]
| cab_posix r :
    r_ret r = 0 ->
    ctor_aborted Posix
      (Message "Failed to open /dev/urandom. Reason: %s. Error code: %d."
         [ArgStrerror (r_errno r); ArgInt (r_errno r)])
      [(Fopen "/dev/urandom" "rb", r)].

(** How a call of [rand] finds its generator: already there, or
    constructed on the spot. *)
Definition started (p : platform) (s : process) (l : RandomLayer)
    (es : list entry) : Prop :=
  (layer s = Some l /\ es = []) \/ (layer s = None /\ constructed p l es).

Inductive exchange (p : platform) (s : process) {A : Type}
  : outcome process A -> Prop :=
| ex_returned l ies ds es a s' :
    started p s l ies -> segments l ds es ->
    logged s (ies ++ es) s' -> layer s' = Some l ->
    exchange p s (Returned a s')
| ex_ctor_aborted m ies s' :
    layer s = None -> ctor_aborted p m ies ->
    logged s ies s' -> layer s' = None ->
    exchange p s (Fatal m s')
| ex_draw_aborted l ies ds es tail m s' :
    started p s l ies -> segments l ds es -> aborted l m tail ->
    logged s (ies ++ es ++ tail) s' -> layer s' = Some l ->
    exchange p s (Fatal m s')
| ex_ctor_starved :
    layer s = None -> script s = [] ->
    exchange p s (Starved s)
| ex_draw_starved l ies ds es tail s' :
    started p s l ies -> segments l ds es -> pending l tail ->
    logged s (ies ++ es ++ tail) s' -> layer s' = Some l -> script s' = [] ->
    exchange p s (Starved s').

(** [follows R o2 o1]: [o1] does what [o2] does: the same return value,
    in states related by [R], and it lacks a reply when [o2] does. *)
Definition follows {St1 St2 : Type} (R : St1 -> St2 -> Prop) {A : Type}
    (o2 : outcome St2 A) (o1 : outcome St1 A) : Prop :=
  match o2 with
  | Returned a s2' => exists s1', o1 = Returned a s1' /\ R s1' s2'
  | Starved _ => exists s1', o1 = Starved s1'
  | Fatal _ _ => True
  end.

(** ** An operating system that serves every request *)

(** The reply to the constructor's request (a non-null pointer) and the
    reply that delivers the four bytes [x]. *)
Definition ctor_replies (p : platform) : list os_reply :=
  match p with
  | Linux => []
  | _ => [Reply 1 0 0]
  end.

Definition draw_reply (p : platform) (x : Z) : os_reply :=
  match p with
  | Linux => Reply 4 x 0
  | _ => Reply 1 x 0
  end.

Definition served_layer (p : platform) : RandomLayer :=
  match p with
  | Windows => WinLayer 1
  | Linux => LinuxLayer
  | Posix => PosixLayer 1
  end.

(** A fresh process to which the OS will deliver the draws [ds]. *)
Definition served (p : platform) (ds : list Z) : process :=
  boot (ctor_replies p ++ map (draw_reply p) ds).

Definition serves (p : platform) (s : process) (ds : list Z) : Prop :=
  script s = map (draw_reply p) ds.

(** A draw that neither remapping rejects, whatever the range. *)
Definition accepted_draw (d : remapping) : Z :=
  match d with
  | NearlyDivisionless => UINT32_MAX
  | TwoDivisions => 0
  end.

(** ** What the log says about a run *)

(** The part of the log written between two states. *)
Definition since (s s' : process) : list entry :=
  skipn (List.length (trace s)) (trace s').

(** The raw 32-bit value an exchange delivered, if it is a draw that
    succeeded. *)
Definition delivered (e : entry) : option Z :=
  match e with
  | (ProcessPrng _ _, r) =>
      if r_ret r =? 0 then None else Some (wrap32 (r_buf r))
  | (Getrandom _ _, r) =>
      if r_ret r =? 4 then Some (wrap32 (r_buf r)) else None
  | (Fread _ _ _, r) =>
      if r_ret r =? 1 then Some (wrap32 (r_buf r)) else None
  | _ => None
  end.

(** The sequence of raw values drawn from the entropy source. *)
Fixpoint raw_draws (es : list entry) : list Z :=
  match es with
  | [] => []
  | e :: es' =>
      match delivered e with
      | Some x => x :: raw_draws es'
      | None => raw_draws es'
      end
  end.

(** The distribution as a function of the values drawn: the result, when
    the draws are exactly those it needs. *)
Definition sample (d : remapping) (min max : Z) (ds : list Z) : option Z :=
  match
    uniform_int_distribution_call list_urng d min max (List.length ds) ds
  with
  | Returned v [] => Some v
  | _ => None
  end.

(** The failure taxonomy of the specification, read off an exchange.
    The result of [fclose] is not looked at by the code. *)
Inductive verdict : Type :=
| Succeeded
| ShortRead                               (* fewer bytes than asked, no error *)
| Failed.

Definition verdict_of (e : entry) : verdict :=
  match e with
  | (LoadWinAPI _ _, r) => if r_ret r =? 0 then Failed else Succeeded
  | (ProcessPrng _ _, r) => if r_ret r =? 0 then Failed else Succeeded
  | (Getrandom _ _, r) =>
      if r_ret r =? 4 then Succeeded
      else if r_ret r <? 0 then Failed else ShortRead
  | (Fopen _ _, r) => if r_ret r =? 0 then Failed else Succeeded
  | (Fread _ _ _, r) => if r_ret r =? 1 then Succeeded else Failed
  | (Fclose _, _) => Succeeded
  end.

(** The calls after which the OS reports its error in [errno]. *)
Definition reports_errno (c : os_call) : bool :=
  match c with
  | Getrandom _ _ | Fopen _ _ | Fread _ _ _ => true
  | _ => false
  end.

(** No [limit] short reads in a row; [run] is the number of short reads
    that immediately precede [es]. *)
Fixpoint short_runs_below (limit run : nat) (es : list entry) : bool :=
  match es with
  | [] => true
  | e :: es' =>
      match verdict_of e with
      | ShortRead =>
          (S run <? limit)%nat && short_runs_below limit (S run) es'
      | _ => short_runs_below limit 0 es'
      end
  end.

(** ** Two processes to try things on *)

Definition example_linux_process : process :=
  boot [Reply 2 9 0; Reply 4 3000000000 0].

Definition example_posix_process : process :=
  boot [Reply 7 0 0; Reply 1 3000000000 0; Reply 1 5 0].

(** ** Failures *)

Definition no_failure (es : list entry) : Prop :=
  Forall (fun e => verdict_of e <> Failed) es.

(** Why a run was aborted, read off the log of the run [es]: its last
    exchange failed, and the message carries the error the OS reported
    where the call reports one; or its last [RETRY_MAX] exchanges were
    short reads.  Nothing failed before. *)
Definition abort_cause (m : fatal_message) (es : list entry) : Prop :=
  exists before last,
    es = before ++ [last] /\ no_failure before /\
    ((verdict_of last = Failed /\
      (reports_errno (fst last) = true ->
       m_args m = [ArgStrerror (r_errno (snd last));
                   ArgInt (r_errno (snd last))]))
     \/
     (m = Message "getrandom() failed. Reason: too many retries." [] /\
      exists pre shorts,
        es = pre ++ shorts /\ List.length shorts = RETRY_MAX /\
        Forall (fun e => verdict_of e = ShortRead) shorts)).

(** ** A series of calls, and the exit *)

(** Outcomes that end alike, whatever they return. *)
Definition same_end {A B : Type} (o : outcome process A)
    (o' : outcome process B) : Prop :=
  match o, o' with
  | Returned _ s1, Returned _ s2 => s1 = s2
  | Fatal m1 s1, Fatal m2 s2 => m1 = m2 /\ s1 = s2
  | Starved s1, Starved s2 => s1 = s2
  | _, _ => False
  end.

(** What the destructor exchanges. *)
Inductive destroyed : RandomLayer -> list entry -> Prop :=
| des_win fn : destroyed (WinLayer fn) []
| des_linux : destroyed LinuxLayer []
| des_posix f r : destroyed (PosixLayer f) [(Fclose f, r)].

(** The whole life of a process that calls [rand] at least once. *)
Inductive life (p : platform) (s : process)
  : outcome process (list Z) -> Prop :=
| life_exited l ies ds es fin vs s' :
    started p s l ies -> segments l ds es -> destroyed l fin ->
    logged s (ies ++ es ++ fin) s' ->
    life p s (Returned vs s')
| life_ctor_aborted m ies s' :
    layer s = None -> ctor_aborted p m ies -> logged s ies s' ->
    life p s (Fatal m s')
| life_draw_aborted l ies ds es tail m s' :
    started p s l ies -> segments l ds es -> aborted l m tail ->
    logged s (ies ++ es ++ tail) s' ->
    life p s (Fatal m s')
| life_ctor_starved :
    layer s = None -> script s = [] ->
    life p s (Starved s)
| life_starved l ies ds es tail s' :
    started p s l ies -> segments l ds es -> pending l tail ->
    logged s (ies ++ es ++ tail) s' -> script s' = [] ->
    life p s (Starved s').

(** ** The logs of the fallback and of the Windows variant *)

Definition fread_entries (stream : Z) (rs : list os_reply) : list entry :=
  map (fun r => (Fread 4 1 stream, r)) rs.

Definition prng_entries (fn : Z) (rs : list os_reply) : list entry :=
  map (fun r => (ProcessPrng fn 4, r)) rs.

(** ** The flags of getrandom *)

(** The flag of getrandom(2) that asks not to be blocked, from
    <sys/random.h>. *)
Definition GRND_NONBLOCK : Z := 1.

(** Whether a call of [getrandom] asks not to be blocked: without
    [GRND_NONBLOCK] the call waits until the kernel's pool has been
    initialised. *)
Definition nonblocking_mode (c : os_call) : bool :=
  match c with
  | Getrandom _ flags => negb (Z.land flags GRND_NONBLOCK =? 0)
  | _ => false
  end.

(** ** Counting the exchanges of a constructor *)

(** The calls only a constructor of [RandomLayer] makes. *)
Definition is_ctor_call (c : os_call) : bool :=
  match c with
  | LoadWinAPI _ _ | Fopen _ _ => true
  | _ => false
  end.

Definition ctor_calls (es : list entry) : nat :=
  List.length (filter (fun e => is_ctor_call (fst e)) es).

(** A process whose static object is already there. *)
Definition example_running_process : process :=
  Process (Some (PosixLayer 7)) [Reply 1 3000000000 0]
    [(Fopen "/dev/urandom" "rb", Reply 7 0 0)].

(** ** Requests a caller may make *)

(** A pair of bounds that keeps the precondition of [rand]. *)
Definition valid_request (r : Z * Z) : Prop :=
  is_uint32 (fst r) /\ is_uint32 (snd r) /\ fst r <= snd r.

Definition within (r : Z * Z) (v : Z) : Prop := fst r <= v <= snd r.

Definition example_replies : list os_reply :=
  [Reply 99 0 0; Reply 1 12345 0; Reply 1 4000000000 0; Reply 0 0 0].

(** * Properties *)

(** Splits the conjunctions of a goal, and nothing else. *)
Ltac splits := repeat match goal with |- _ /\ _ => split end.

(** ** The model on a few inputs *)

Example linux_short_read_then_full_read :
  exists s',
    rand Linux NearlyDivisionless 5 5 (boot [Reply 2 1 0; Reply 4 7 0])
    = Returned 5 s' /\
    trace s' = [(Getrandom 4 0, Reply 2 1 0); (Getrandom 4 0, Reply 4 7 0)].
Proof. eexists. split; vm_compute; reflexivity. Qed.

Example linux_error_after_short_read :
  exists s',
    rand Linux NearlyDivisionless 1 6 (boot [Reply 2 0 0; Reply (-1) 0 11])
    = Fatal (Message "getrandom() error. Reason: %s. Error code: %d."
               [ArgStrerror 11; ArgInt 11]) s'.
Proof. eexists. vm_compute. reflexivity. Qed.

Example linux_three_short_reads :
  exists s',
    rand Linux NearlyDivisionless 1 6
      (boot [Reply 2 0 0; Reply 0 0 0; Reply 3 0 0; Reply 4 9 0])
    = Fatal (Message "getrandom() failed. Reason: too many retries." []) s' /\
    script s' = [Reply 4 9 0].
Proof. eexists. split; vm_compute; reflexivity. Qed.

Example nearly_divisionless_rejects_a_draw :
  exists s',
    rand Linux NearlyDivisionless 100 200
      (boot [Reply 4 0 0; Reply 4 4294967295 0])
    = Returned 200 s' /\ script s' = [].
Proof. eexists. split; vm_compute; reflexivity. Qed.

Example two_divisions_rejects_a_draw :
  exists s',
    rand Linux TwoDivisions 5 5 (boot [Reply 4 4294967295 0; Reply 4 3 0])
    = Returned 5 s' /\ script s' = [].
Proof. eexists. split; vm_compute; reflexivity. Qed.

Example posix_two_calls_and_exit :
  exists s',
    run Posix NearlyDivisionless [(1, 6); (1, 6)]
      (boot [Reply 99 0 0; Reply 1 12345 0; Reply 1 4000000000 0; Reply 0 0 0])
    = Returned [1; 6] s' /\
    trace s' = [(Fopen "/dev/urandom" "rb", Reply 99 0 0);
                (Fread 4 1 99, Reply 1 12345 0);
                (Fread 4 1 99, Reply 1 4000000000 0);
                (Fclose 99, Reply 0 0 0)].
Proof. eexists. split; vm_compute; reflexivity. Qed.

Example windows_call_fails :
  exists s',
    run Windows TwoDivisions [(1, 6); (1, 6)]
      (boot [Reply 99 0 0; Reply 1 12345 0; Reply 0 0 0])
    = Fatal (Message "ProcessPrng() failed." []) s'.
Proof. eexists. vm_compute. reflexivity. Qed.

(** ** Arithmetic of the fixed-width types *)

Lemma wrap32_range (z : Z) : 0 <= wrap32 z <= UINT32_MAX.
Proof.
  unfold wrap32, UINT32_MAX.
  pose proof (Z.mod_pos_bound z (2 ^ 32) ltac:(lia)). lia.
Qed.

Lemma wrap32_small (z : Z) : 0 <= z <= UINT32_MAX -> wrap32 z = z.
Proof.
  unfold wrap32, UINT32_MAX. intros H. apply Z.mod_small. lia.
Qed.

Lemma wrap64_small (z : Z) : 0 <= z < 2 ^ 64 -> wrap64 z = z.
Proof. unfold wrap64. intros H. now apply Z.mod_small. Qed.

Lemma urngrange_eq : urngrange = UINT32_MAX.
Proof. reflexivity. Qed.

(** The requested range never exceeds the range of the generator, so the
    up-scaling branch of the distribution is dead at these types. *)
Lemma urange_le_urngrange (a b : Z) : (urngrange <? wrap32 (b - a)) = false.
Proof.
  apply Z.ltb_ge. rewrite urngrange_eq. apply wrap32_range.
Qed.

(** [__product] for a 32-bit draw and a 32-bit range fits 64 bits. *)
Lemma product_fits (x range : Z) :
  0 <= x <= UINT32_MAX -> 0 <= range <= UINT32_MAX ->
  wrap64 (x * range) = x * range.
Proof.
  unfold UINT32_MAX. intros Hx Hr. apply wrap64_small. nia.
Qed.

(** The high half of [x * range] is below [range]. *)
Lemma high_half_below (x range : Z) :
  0 <= x <= UINT32_MAX -> 0 < range ->
  0 <= Z.shiftr (x * range) 32 < range.
Proof.
  unfold UINT32_MAX. intros Hx Hr.
  rewrite Z.shiftr_div_pow2 by lia. split.
  - apply Z.div_pos; nia.
  - apply Z.div_lt_upper_bound; nia.
Qed.

(** ** Monad bookkeeping *)

Lemma bind_Returned {S A B : Type} (c : M S A) (k : A -> M S B) s b s' :
  bind c k s = Returned b s' ->
  exists a s1, c s = Returned a s1 /\ k a s1 = Returned b s'.
Proof.
  unfold bind. destruct (c s) as [a s1 | m s1 | s1]; intros H;
    try discriminate. now exists a, s1.
Qed.

Lemma bind_Fatal {S A B : Type} (c : M S A) (k : A -> M S B) s m s' :
  bind c k s = Fatal m s' ->
  c s = Fatal m s' \/ exists a s1, c s = Returned a s1 /\ k a s1 = Fatal m s'.
Proof.
  unfold bind. destruct (c s) as [a s1 | m1 s1 | s1]; intros H;
    try discriminate.
  - right. now exists a, s1.
  - left. now inversion H.
Qed.

Lemma bind_Starved {S A B : Type} (c : M S A) (k : A -> M S B) s s' :
  bind c k s = Starved s' ->
  c s = Starved s' \/ exists a s1, c s = Returned a s1 /\ k a s1 = Starved s'.
Proof.
  unfold bind. destruct (c s) as [a s1 | m1 s1 | s1]; intros H;
    try discriminate.
  - right. now exists a, s1.
  - left. now inversion H.
Qed.

Lemma bind_step {S A B : Type} (c : M S A) (k : A -> M S B) s a s1 :
  c s = Returned a s1 -> bind c k s = k a s1.
Proof. unfold bind. now intros ->. Qed.

Lemma bind_ext_l {S A B : Type} (c1 c2 : M S A) (k : A -> M S B) s :
  c1 s = c2 s -> bind c1 k s = bind c2 k s.
Proof. unfold bind. now intros ->. Qed.

Lemma bind_ext_r {S A B : Type} (c : M S A) (k1 k2 : A -> M S B) s :
  (forall a s1, c s = Returned a s1 -> k1 a s1 = k2 a s1) ->
  bind c k1 s = bind c k2 s.
Proof. unfold bind. intros H. destruct (c s); auto. Qed.

Lemma mret_Returned {S A : Type} (a b : A) (s s' : S) :
  mret a s = Returned b s' -> a = b /\ s = s'.
Proof. unfold mret. intros H. now inversion H. Qed.

(** ** The distribution over an arbitrary generator *)

Section DistributionFuel.

Context {St : Type}.
Variable urng : M St Z.

(** *** More fuel changes nothing once a loop has come to an end *)

Lemma S_nd_while_fuel (f f' : nat) range thr prod s :
  (f <= f')%nat ->
  not_starved (S_nd_while urng f range thr prod s) ->
  S_nd_while urng f' range thr prod s = S_nd_while urng f range thr prod s.
Proof.
  revert f' prod s.
  induction f as [| f IH]; intros f' prod s Hle Hns.
  - destruct f'; simpl in *;
      destruct (wrap32 prod <? thr); try reflexivity; contradiction.
  - destruct f' as [| f']; [lia |]. simpl in *.
    destruct (wrap32 prod <? thr); [| reflexivity].
    unfold bind in *. destruct (urng s) as [x s1 | m s1 | s1];
      try reflexivity.
    apply IH; [lia | exact Hns].
Qed.

Lemma two_div_do_while_fuel (f f' : nat) past s :
  (f <= f')%nat ->
  not_starved (two_div_do_while urng f past s) ->
  two_div_do_while urng f' past s = two_div_do_while urng f past s.
Proof.
  revert f' s.
  induction f as [| f IH]; intros f' s Hle Hns.
  - simpl in Hns. contradiction.
  - destruct f' as [| f']; [lia |]. simpl in *.
    unfold bind in *. destruct (urng s) as [x s1 | m s1 | s1];
      try reflexivity.
    destruct (wrap32 (x - urngmin) >=? past); [| reflexivity].
    apply IH; [lia | exact Hns].
Qed.

Lemma not_starved_bind {A B : Type} (c : M St A) (k : A -> M St B) s :
  not_starved (bind c k s) -> not_starved (c s).
Proof. unfold bind. now destruct (c s). Qed.

Lemma uniform_fuel (d : remapping) (a b : Z) (f f' : nat) s :
  (f <= f')%nat ->
  not_starved (uniform_int_distribution_call urng d a b f s) ->
  uniform_int_distribution_call urng d a b f' s
  = uniform_int_distribution_call urng d a b f s.
Proof.
  intros Hle Hns. unfold uniform_int_distribution_call in *.
  cbv zeta in *. apply not_starved_bind in Hns. apply bind_ext_l.
  destruct (urngrange >? wrap32 (b - a)); [| reflexivity].
  destruct d.
  - unfold S_nd in *. cbv zeta in *.
    apply bind_ext_r. intros x s1 Hx.
    rewrite (bind_step _ _ _ _ _ Hx) in Hns.
    apply not_starved_bind in Hns. apply bind_ext_l.
    destruct (wrap32 (wrap64 (x * wrap32 (wrap32 (b - a) + 1)))
              <? wrap32 (wrap32 (b - a) + 1)); [| reflexivity].
    now apply S_nd_while_fuel.
  - apply not_starved_bind in Hns. apply bind_ext_l.
    now apply two_div_do_while_fuel.
Qed.

End DistributionFuel.

Section DistributionFacts.

Context {St : Type}.
Variable urng : M St Z.

Local Abbreviation draws := (draws urng).
Local Abbreviation shape := (shape urng).

Lemma draws_one s x s1 : urng s = Returned x s1 -> draws s [x] s1.
Proof. intros H. eapply draws_cons; [exact H | constructor]. Qed.

Lemma draws_app s ds1 s1 ds2 s2 :
  draws s ds1 s1 -> draws s1 ds2 s2 -> draws s (ds1 ++ ds2) s2.
Proof.
  induction 1 as [s | s x s1' ds s2' Hx _ IH]; intros H2; simpl.
  - exact H2.
  - eapply draws_cons; [exact Hx | now apply IH].
Qed.

(** *** What a run of the distribution looks like *)

Lemma shape_draw {A : Type} fuel s x s1 (o : outcome St A) :
  urng s = Returned x s1 -> shape fuel s1 o -> shape (S fuel) s o.
Proof.
  intros Hx (ds & s2 & Hds & Ho). exists (x :: ds), s2. split.
  - eapply draws_cons; eauto.
  - destruct o; auto. destruct Ho as [Ho | [Ho Hf]]; [now left | right].
    split; [exact Ho | simpl; lia].
Qed.

Lemma shape_weaken {A : Type} f f' s (o : outcome St A) :
  (f' <= f)%nat -> shape f s o -> shape f' s o.
Proof.
  intros Hle (ds & s1 & Hds & Ho). exists ds, s1. split; [exact Hds |].
  destruct o; auto. destruct Ho as [Ho | [Ho Hf]]; [now left | right].
  split; [exact Ho | lia].
Qed.

Lemma shape_retype {A B : Type} fuel s (o : outcome St A) (o' : outcome St B) :
  shape fuel s o ->
  match o, o' with
  | Returned _ s1, Returned _ s2 => s1 = s2
  | Fatal m1 s1, Fatal m2 s2 => m1 = m2 /\ s1 = s2
  | Starved s1, Starved s2 => s1 = s2
  | _, _ => False
  end ->
  shape fuel s o'.
Proof.
  intros (ds & s1 & Hds & Ho) Hoo. exists ds, s1. split; [exact Hds |].
  destruct o, o'; try contradiction.
  - now subst.
  - destruct Hoo as [-> ->]. exact Ho.
  - now subst.
Qed.

Lemma shape_fail {A : Type} fuel s (o : outcome St Z) (o' : outcome St A) :
  urng s = o ->
  match o, o' with
  | Fatal m1 s1, Fatal m2 s2 => m1 = m2 /\ s1 = s2
  | Starved s1, Starved s2 => s1 = s2
  | _, _ => False
  end ->
  shape fuel s o'.
Proof.
  intros Ho Hoo. exists [], s. split; [constructor |].
  destruct o, o'; try contradiction.
  - destruct Hoo as [-> ->]. exact Ho.
  - subst. now left.
Qed.

Lemma S_nd_while_shape fuel range thr prod s :
  shape fuel s (S_nd_while urng fuel range thr prod s).
Proof.
  revert prod s. induction fuel as [| fuel IH]; intros prod s; simpl.
  - destruct (wrap32 prod <? thr).
    + exists [], s. split; [constructor |]. right. now split.
    + exists [], s. split; [constructor | reflexivity].
  - destruct (wrap32 prod <? thr).
    + unfold bind. destruct (urng s) as [x s1 | m s1 | s1] eqn:Hx.
      * eapply shape_draw; [exact Hx | apply IH].
      * eapply shape_fail; [exact Hx | now split].
      * eapply shape_fail; [exact Hx | reflexivity].
    + exists [], s. split; [constructor | reflexivity].
Qed.

Lemma two_div_do_while_shape fuel past s :
  shape fuel s (two_div_do_while urng fuel past s).
Proof.
  revert s. induction fuel as [| fuel IH]; intros s; simpl.
  - exists [], s. split; [constructor |]. right. now split.
  - unfold bind. destruct (urng s) as [x s1 | m s1 | s1] eqn:Hx.
    + destruct (wrap32 (x - urngmin) >=? past).
      * eapply shape_draw; [exact Hx | apply IH].
      * exists [x], s1. split; [now apply draws_one | reflexivity].
    + eapply shape_fail; [exact Hx | now split].
    + eapply shape_fail; [exact Hx | reflexivity].
Qed.

Lemma shape_bind_mret {A B : Type} fuel s (c : M St A) (f : A -> B) :
  shape fuel s (c s) -> shape fuel s (bind c (fun a => mret (f a)) s).
Proof.
  intros H. eapply shape_retype; [exact H |].
  unfold bind, mret. destruct (c s); auto.
Qed.

Lemma uniform_shape (d : remapping) (a b : Z) fuel s :
  shape fuel s (uniform_int_distribution_call urng d a b fuel s).
Proof.
  unfold uniform_int_distribution_call. cbv zeta.
  apply shape_bind_mret.
  destruct (urngrange >? wrap32 (b - a)).
  - destruct d.
    + unfold S_nd. cbv zeta. unfold bind at 1.
      destruct (urng s) as [x s1 | m s1 | s1] eqn:Hx.
      * apply shape_weaken with (f := S fuel); [lia |].
        eapply shape_draw; [exact Hx |].
        apply shape_bind_mret.
        destruct (_ <? _).
        -- apply S_nd_while_shape.
        -- exists [], s1. split; [constructor | reflexivity].
      * eapply shape_fail; [exact Hx | now split].
      * eapply shape_fail; [exact Hx | reflexivity].
    + apply shape_bind_mret. apply two_div_do_while_shape.
  - unfold bind, mret. destruct (urng s) as [x s1 | m s1 | s1] eqn:Hx.
    + exists [x], s1. split; [now apply draws_one | reflexivity].
    + eapply shape_fail; [exact Hx | now split].
    + eapply shape_fail; [exact Hx | reflexivity].
Qed.

(** *** Generators of 32-bit values *)

Section Bounded.

(** [result_type] is [uint32_t]. *)
Hypothesis urng_bounded :
  forall s x s', urng s = Returned x s' -> 0 <= x <= UINT32_MAX.

(** The value returned is the one the same code computes from the
    values drawn, fed to it from a list. *)
Lemma S_nd_while_value fuel range thr prod s prod' s' :
  S_nd_while urng fuel range thr prod s = Returned prod' s' ->
  exists ds,
    draws s ds s' /\
    S_nd_while list_urng (List.length ds) range thr prod ds
    = Returned prod' [].
Proof.
  revert prod s. induction fuel as [| fuel IH]; intros prod s; simpl.
  - destruct (wrap32 prod <? thr) eqn:E; [discriminate |].
    intros H. apply mret_Returned in H as [<- <-].
    exists []. split; [constructor |]. simpl. now rewrite E.
  - destruct (wrap32 prod <? thr) eqn:E.
    + intros H. apply bind_Returned in H as (x & s1 & Hx & H).
      apply IH in H as (ds & Hds & Hl).
      exists (x :: ds). split; [eapply draws_cons; eauto |].
      simpl. rewrite E. unfold bind. simpl.
      rewrite (wrap32_small x) by eauto. exact Hl.
    + intros H. apply mret_Returned in H as [<- <-].
      exists []. split; [constructor |]. simpl. now rewrite E.
Qed.

Lemma two_div_do_while_value fuel past s ret s' :
  two_div_do_while urng fuel past s = Returned ret s' ->
  exists ds,
    draws s ds s' /\ ds <> [] /\
    two_div_do_while list_urng (List.length ds) past ds = Returned ret [].
Proof.
  revert s. induction fuel as [| fuel IH]; intros s; simpl.
  - discriminate.
  - intros H. apply bind_Returned in H as (x & s1 & Hx & H).
    destruct (wrap32 (x - urngmin) >=? past) eqn:E.
    + apply IH in H as (ds & Hds & _ & Hl).
      exists (x :: ds). split; [eapply draws_cons; eauto |].
      split; [discriminate |].
      simpl. unfold bind. simpl.
      rewrite (wrap32_small x) by eauto. now rewrite E.
    + apply mret_Returned in H as [<- <-].
      exists [x]. split; [now apply draws_one |].
      split; [discriminate |].
      simpl. unfold bind. simpl.
      rewrite (wrap32_small x) by eauto. now rewrite E.
Qed.

Lemma uniform_value (d : remapping) (a b : Z) fuel s v s' :
  uniform_int_distribution_call urng d a b fuel s = Returned v s' ->
  exists ds,
    draws s ds s' /\ ds <> [] /\
    uniform_int_distribution_call list_urng d a b (List.length ds) ds
    = Returned v [].
Proof.
  unfold uniform_int_distribution_call. cbv zeta.
  intros H. apply bind_Returned in H as (ret & s1 & H & Hv).
  apply mret_Returned in Hv as [<- <-].
  destruct (urngrange >? wrap32 (b - a)).
  - destruct d.
    + unfold S_nd in H. cbv zeta in H.
      apply bind_Returned in H as (x & s2 & Hx & H).
      apply bind_Returned in H as (prod' & s3 & H & Hr).
      apply mret_Returned in Hr as [<- <-].
      assert (Hl : exists ds,
                 draws s2 ds s3 /\
                 (if wrap32 (wrap64 (x * wrap32 (wrap32 (b - a) + 1)))
                     <? wrap32 (wrap32 (b - a) + 1)
                  then S_nd_while list_urng (List.length ds)
                         (wrap32 (wrap32 (b - a) + 1))
                         (wrap32 (- wrap32 (wrap32 (b - a) + 1))
                          mod wrap32 (wrap32 (b - a) + 1))
                         (wrap64 (x * wrap32 (wrap32 (b - a) + 1)))
                  else mret (wrap64 (x * wrap32 (wrap32 (b - a) + 1))))
                   ds = Returned prod' []).
      { destruct (_ <? _).
        - now apply S_nd_while_value in H.
        - apply mret_Returned in H as [<- <-].
          exists []. split; [constructor | reflexivity]. }
      destruct Hl as (ds & Hds & Hl).
      exists (x :: ds). split; [eapply draws_cons; eauto |].
      split; [discriminate |].
      unfold S_nd. cbv zeta. unfold bind at 1 2. simpl list_urng.
      rewrite (wrap32_small x) by eauto. cbv iota beta.
      assert (Hf : forall range thr prod,
                 S_nd_while list_urng (List.length ds) range thr prod ds
                 = Returned prod' [] ->
                 S_nd_while list_urng (List.length (x :: ds)) range thr
                   prod ds = Returned prod' []).
      { intros range thr prod Hr.
        rewrite (S_nd_while_fuel list_urng (List.length ds)); auto.
        - simpl. lia.
        - now rewrite Hr. }
      unfold bind at 1.
      destruct (_ <? _).
      * now rewrite (Hf _ _ _ Hl).
      * now rewrite Hl.
    + apply bind_Returned in H as (r & s2 & H & Hr).
      apply mret_Returned in Hr as [<- <-].
      apply two_div_do_while_value in H as (ds & Hds & Hne & Hl).
      exists ds. split; [exact Hds |]. split; [exact Hne |].
      unfold bind at 1 2. now rewrite Hl.
  - apply bind_Returned in H as (x & s2 & Hx & Hr).
    apply mret_Returned in Hr as [<- <-].
    exists [x]. split; [now apply draws_one |].
    split; [discriminate |].
    unfold bind. simpl. now rewrite (wrap32_small x) by eauto.
Qed.

(** *** The value returned lies in the requested range *)

Lemma S_nd_while_product fuel range thr prod s prod' s' :
  0 <= range <= UINT32_MAX ->
  (exists x, 0 <= x <= UINT32_MAX /\ prod = x * range) ->
  S_nd_while urng fuel range thr prod s = Returned prod' s' ->
  exists x, 0 <= x <= UINT32_MAX /\ prod' = x * range.
Proof.
  intros Hr. revert prod s.
  induction fuel as [| fuel IH]; intros prod s Hp; simpl.
  - destruct (wrap32 prod <? thr); [discriminate |].
    intros H. now apply mret_Returned in H as [<- _].
  - destruct (wrap32 prod <? thr).
    + intros H. apply bind_Returned in H as (x & s1 & Hx & H).
      apply IH in H; [exact H |].
      exists x. split; [eauto |]. apply product_fits; eauto.
    + intros H. now apply mret_Returned in H as [<- _].
Qed.

Lemma S_nd_range fuel range s v s' :
  0 < range <= UINT32_MAX ->
  S_nd urng fuel range s = Returned v s' ->
  0 <= v < range.
Proof.
  intros Hr H. unfold S_nd in H. cbv zeta in H.
  apply bind_Returned in H as (x & s1 & Hx & H).
  apply bind_Returned in H as (prod' & s2 & H & Hv).
  apply mret_Returned in Hv as [<- _].
  assert (Hp : exists y, 0 <= y <= UINT32_MAX /\ prod' = y * range).
  { destruct (_ <? _).
    - apply S_nd_while_product in H; [exact H | lia |].
      exists x. split; [eauto |]. apply product_fits; [eauto | lia].
    - apply mret_Returned in H as [<- _].
      exists x. split; [eauto |]. apply product_fits; [eauto | lia]. }
  destruct Hp as (y & Hy & ->).
  pose proof (high_half_below y range Hy ltac:(lia)) as Hh.
  rewrite wrap32_small; [exact Hh | lia].
Qed.

Lemma two_div_do_while_range fuel past s ret s' :
  two_div_do_while urng fuel past s = Returned ret s' ->
  0 <= ret < past.
Proof.
  revert s. induction fuel as [| fuel IH]; intros s; simpl.
  - discriminate.
  - intros H. apply bind_Returned in H as (x & s1 & Hx & H).
    destruct (wrap32 (x - urngmin) >=? past) eqn:E.
    + now apply IH in H.
    + apply mret_Returned in H as [<- _].
      pose proof (wrap32_range (x - urngmin)).
      rewrite Z.geb_leb in E. apply Z.leb_gt in E. lia.
Qed.

Lemma uniform_range (d : remapping) (a b : Z) fuel s v s' :
  is_uint32 a -> is_uint32 b -> a <= b ->
  uniform_int_distribution_call urng d a b fuel s = Returned v s' ->
  a <= v <= b.
Proof.
  unfold is_uint32. intros Ha Hb Hab H.
  unfold uniform_int_distribution_call in H. cbv zeta in H.
  apply bind_Returned in H as (ret & s1 & H & Hv).
  apply mret_Returned in Hv as [<- _].
  rewrite (wrap32_small (b - a)) in H by lia.
  rewrite urngrange_eq in H.
  destruct (UINT32_MAX >? b - a) eqn:E.
  - rewrite Z.gtb_ltb in E. apply Z.ltb_lt in E.
    rewrite (wrap32_small (b - a + 1)) in H by lia.
    assert (Hret : 0 <= ret < b - a + 1).
    { destruct d.
      - apply S_nd_range in H; [exact H | lia].
      - apply bind_Returned in H as (r & s2 & H & Hr).
        apply mret_Returned in Hr as [<- _].
        apply two_div_do_while_range in H.
        assert (Hs : 0 < UINT32_MAX / (b - a + 1)).
        { apply Z.div_str_pos. lia. }
        assert (Hm : (b - a + 1) * (UINT32_MAX / (b - a + 1)) <= UINT32_MAX).
        { apply Z.mul_div_le. lia. }
        rewrite wrap32_small in H by nia.
        split.
        + apply Z.div_pos; lia.
        + apply Z.div_lt_upper_bound; [exact Hs | lia]. }
    rewrite wrap32_small; lia.
  - rewrite Z.gtb_ltb in E. apply Z.ltb_ge in E.
    apply bind_Returned in H as (x & s2 & Hx & Hr).
    apply mret_Returned in Hr as [<- _].
    apply urng_bounded in Hx.
    assert (a = 0) by lia. assert (b = UINT32_MAX) by lia. subst a b.
    unfold urngmin, RandomLayer_min, numeric_limits_min.
    rewrite Z.sub_0_r, Z.add_0_r, !wrap32_small by (try rewrite wrap32_small; lia).
    exact Hx.
Qed.

End Bounded.

End DistributionFacts.

(** ** What the process exchanges with the operating system *)

Lemma logged_refl s : logged s [] s.
Proof. unfold logged. simpl. now rewrite app_nil_r. Qed.

Lemma logged_trans s es1 s1 es2 s2 :
  logged s es1 s1 -> logged s1 es2 s2 -> logged s (es1 ++ es2) s2.
Proof.
  intros (Ht1 & Hs1) (Ht2 & Hs2). unfold logged.
  rewrite Ht2, Ht1, Hs1, Hs2, map_app, !app_assoc. auto.
Qed.

Lemma logged_length s es s' :
  logged s es s' ->
  List.length (script s) = (List.length es + List.length (script s'))%nat.
Proof.
  intros (_ & Hs). now rewrite Hs, length_app, length_map.
Qed.

Lemma extends_refl s : extends s [] s.
Proof. split; [reflexivity | apply logged_refl]. Qed.

Lemma extends_trans s es1 s1 es2 s2 :
  extends s es1 s1 -> extends s1 es2 s2 -> extends s (es1 ++ es2) s2.
Proof.
  intros (Hl1 & H1) (Hl2 & H2). split.
  - now rewrite Hl2.
  - eapply logged_trans; eauto.
Qed.

Lemma extends_logged s es s' : extends s es s' -> logged s es s'.
Proof. now intros (_ & H). Qed.

Lemma os_Returned c s r s' :
  os c s = Returned r s' -> extends s [(c, r)] s'.
Proof.
  unfold os. destruct (script s) as [| r0 rest] eqn:E; [discriminate |].
  intros H. inversion H; subst. unfold extends, logged. simpl.
  now rewrite E.
Qed.

Lemma os_Starved c s s' : os c s = Starved s' -> s' = s /\ script s = [].
Proof.
  unfold os. destruct (script s) as [| r0 rest]; [| discriminate].
  intros H. now inversion H.
Qed.

Lemma os_not_Fatal c s m s' : os c s <> Fatal m s'.
Proof. unfold os. now destruct (script s). Qed.

(** What the Linux loop does with [n] iterations left. *)
Lemma getrandom_loop_spec (n : nat) (s : process) :
  match getrandom_loop n s with
  | Returned x s' =>
      exists shorts r,
        Forall short_read shorts /\ (List.length shorts < n)%nat /\
        r_ret r = 4 /\ x = wrap32 (r_buf r) /\
        extends s (getrandom_entries shorts ++ [(Getrandom 4 0, r)]) s'
  | Fatal m s' =>
      (exists shorts r,
          Forall short_read shorts /\ (List.length shorts < n)%nat /\
          r_ret r < 0 /\
          m = Message "getrandom() error. Reason: %s. Error code: %d."
                [ArgStrerror (r_errno r); ArgInt (r_errno r)] /\
          extends s (getrandom_entries shorts ++ [(Getrandom 4 0, r)]) s')
      \/
      (exists shorts,
          Forall short_read shorts /\ List.length shorts = n /\
          m = Message "getrandom() failed. Reason: too many retries." [] /\
          extends s (getrandom_entries shorts) s')
  | Starved s' =>
      exists shorts,
        Forall short_read shorts /\ (List.length shorts < n)%nat /\
        extends s (getrandom_entries shorts) s' /\ script s' = []
  end.
Proof.
  revert s. induction n as [| n IH]; intros s; simpl.
  - right. exists []. repeat split; auto. apply extends_refl.
  - unfold bind. destruct (os (Getrandom 4 0) s) as [r s1 | m s1 | s1] eqn:Hos.
    + apply os_Returned in Hos.
      destruct (r_ret r =? 4) eqn:E4.
      * apply Z.eqb_eq in E4. exists [], r. simpl.
        splits; auto; try lia; apply Hos.
      * apply Z.eqb_neq in E4. destruct (r_ret r <? 0) eqn:E0.
        -- apply Z.ltb_lt in E0. left. exists [], r. simpl.
           splits; auto; try lia; apply Hos.
        -- apply Z.ltb_ge in E0. specialize (IH s1).
           assert (Hsh : short_read r) by (split; assumption).
           destruct (getrandom_loop n s1) as [x s2 | m s2 | s2].
           ++ destruct IH as (shorts & r' & HF & Hlen & Hr & Hx & Hext).
              exists (r :: shorts), r'. simpl.
              splits; auto; try lia.
              apply (extends_trans _ _ _ _ _ Hos Hext).
           ++ destruct IH as [(shorts & r' & HF & Hlen & Hr & Hm & Hext)
                             | (shorts & HF & Hlen & Hm & Hext)].
              ** left. exists (r :: shorts), r'. simpl.
                 splits; auto; try lia.
                 apply (extends_trans _ _ _ _ _ Hos Hext).
              ** right. exists (r :: shorts). simpl.
                 splits; auto; try lia.
                 apply (extends_trans _ _ _ _ _ Hos Hext).
           ++ destruct IH as (shorts & HF & Hlen & Hext & Hnil).
              exists (r :: shorts). simpl.
              splits; auto; try lia.
              apply (extends_trans _ _ _ _ _ Hos Hext).
    + now apply os_not_Fatal in Hos.
    + apply os_Starved in Hos as [-> Hnil]. exists []. simpl.
      splits; auto; try lia. apply extends_refl.
Qed.

Lemma RandomLayer_call_spec (l : RandomLayer) (s : process) :
  match RandomLayer_call l s with
  | Returned x s' => exists es, extends s es s' /\ segment l x es
  | Fatal m s' => exists es, extends s es s' /\ aborted l m es
  | Starved s' => exists es, extends s es s' /\ pending l es /\ script s' = []
  end.
Proof.
  destruct l as [fn | | f]; unfold RandomLayer_call.
  - unfold bind. destruct (os (ProcessPrng fn 4) s) as [r s1 | m s1 | s1] eqn:Hos.
    + apply os_Returned in Hos. destruct (r_ret r =? 0) eqn:E.
      * apply Z.eqb_eq in E. eexists. split; [exact Hos | now constructor].
      * apply Z.eqb_neq in E. eexists. split; [exact Hos | now constructor].
    + now apply os_not_Fatal in Hos.
    + apply os_Starved in Hos as [-> Hnil]. exists [].
      splits; [apply extends_refl | constructor | exact Hnil].
  - pose proof (getrandom_loop_spec RETRY_MAX s) as H.
    destruct (getrandom_loop RETRY_MAX s) as [x s1 | m s1 | s1].
    + destruct H as (shorts & r & HF & Hlen & Hr & -> & Hext).
      eexists. split; [exact Hext | now constructor].
    + destruct H as [(shorts & r & HF & Hlen & Hr & -> & Hext)
                    | (shorts & HF & Hlen & -> & Hext)].
      * eexists. split; [exact Hext | now constructor].
      * eexists. split; [exact Hext | now constructor].
    + destruct H as (shorts & HF & Hlen & Hext & Hnil).
      eexists. splits; [exact Hext | now constructor | exact Hnil].
  - unfold bind. destruct (os (Fread 4 1 f) s) as [r s1 | m s1 | s1] eqn:Hos.
    + apply os_Returned in Hos. destruct (r_ret r =? 1) eqn:E; simpl.
      * apply Z.eqb_eq in E. eexists. split; [exact Hos | now constructor].
      * apply Z.eqb_neq in E. eexists. split; [exact Hos | now constructor].
    + now apply os_not_Fatal in Hos.
    + apply os_Starved in Hos as [-> Hnil]. exists [].
      splits; [apply extends_refl | constructor | exact Hnil].
Qed.

Lemma RandomLayer_call_bounded l s x s' :
  RandomLayer_call l s = Returned x s' -> 0 <= x <= UINT32_MAX.
Proof.
  intros H. pose proof (RandomLayer_call_spec l s) as Hs. rewrite H in Hs.
  destruct Hs as (es & _ & Hseg). destruct Hseg; apply wrap32_range.
Qed.

Lemma segment_nonempty l x es : segment l x es -> es <> [].
Proof.
  destruct 1; try discriminate.
  intros Hnil. apply app_eq_nil in Hnil as [_ Hnil]. discriminate.
Qed.

Lemma segments_length l ds es :
  segments l ds es -> (List.length ds <= List.length es)%nat.
Proof.
  induction 1 as [| x es ds es' Hseg _ IH]; simpl; [lia |].
  apply segment_nonempty in Hseg. rewrite length_app.
  destruct es; [contradiction | simpl; lia].
Qed.

Lemma draws_segments l s ds s' :
  draws (RandomLayer_call l) s ds s' ->
  exists es, extends s es s' /\ segments l ds es.
Proof.
  induction 1 as [s | s x s1 ds s2 Hx _ (es' & Hext' & Hsegs)].
  - exists []. split; [apply extends_refl | constructor].
  - pose proof (RandomLayer_call_spec l s) as Hs. rewrite Hx in Hs.
    destruct Hs as (es & Hext & Hseg). exists (es ++ es'). split.
    + eapply extends_trans; eauto.
    + now constructor.
Qed.

Lemma RandomLayer_ctor_spec (p : platform) (s : process) :
  match RandomLayer_ctor p s with
  | Returned l s' => exists es, extends s es s' /\ constructed p l es
  | Fatal m s' => exists es, extends s es s' /\ ctor_aborted p m es
  | Starved s' => s' = s /\ script s = []
  end.
Proof.
  destruct p; simpl.
  - unfold loadWinAPI, bind, mret.
    destruct (os (LoadWinAPI "BCryptPrimitives.dll" "ProcessPrng") s)
      as [r s1 | m s1 | s1] eqn:Hos.
    + apply os_Returned in Hos. destruct (r_ret r =? 0) eqn:E.
      * apply Z.eqb_eq in E. eexists. split; [exact Hos | now constructor].
      * apply Z.eqb_neq in E. eexists. split; [exact Hos | now constructor].
    + now apply os_not_Fatal in Hos.
    + now apply os_Starved in Hos.
  - exists []. split; [apply extends_refl | constructor].
  - unfold bind.
    destruct (os (Fopen "/dev/urandom" "rb") s) as [r s1 | m s1 | s1] eqn:Hos.
    + apply os_Returned in Hos. destruct (r_ret r =? 0) eqn:E.
      * apply Z.eqb_eq in E. eexists. split; [exact Hos | now constructor].
      * apply Z.eqb_neq in E. eexists. split; [exact Hos | now constructor].
    + now apply os_not_Fatal in Hos.
    + now apply os_Starved in Hos.
Qed.

Lemma static_layer_spec (p : platform) (s : process) :
  match static_layer p s with
  | Returned l s' =>
      layer s' = Some l /\ exists es, logged s es s' /\ started p s l es
  | Fatal m s' =>
      layer s = None /\ layer s' = None /\
      exists es, logged s es s' /\ ctor_aborted p m es
  | Starved s' => layer s = None /\ s' = s /\ script s = []
  end.
Proof.
  unfold static_layer. destruct (layer s) as [l |] eqn:El.
  - split; [exact El |]. exists []. split; [apply logged_refl |].
    left. now split.
  - pose proof (RandomLayer_ctor_spec p s) as H.
    destruct (RandomLayer_ctor p s) as [l s1 | m s1 | s1].
    + destruct H as (es & (Hl & Ht & Hs) & Hc). simpl.
      split; [reflexivity |]. exists es. split; [now split |].
      right. now split.
    + destruct H as (es & (Hl & Hlog) & Hc).
      splits; [reflexivity | congruence |]. now exists es.
    + now split.
Qed.

(** ** The exchanges of one call of [rand], and of a series of calls *)

(** The fuel [rand] passes is never used up: a run that makes [n] draws
    takes at least [n] replies off the script. *)
Lemma draws_within_fuel l s ds s' :
  draws (RandomLayer_call l) s ds s' ->
  (List.length ds < S (List.length (script s)))%nat.
Proof.
  intros H. apply draws_segments in H as (es & (_ & Hlog) & Hsegs).
  apply logged_length in Hlog. apply segments_length in Hsegs. lia.
Qed.

Lemma rand_exchange (p : platform) (d : remapping) (min max : Z) (s : process) :
  exchange p s (rand p d min max s).
Proof.
  unfold rand. unfold bind.
  pose proof (static_layer_spec p s) as Hst.
  destruct (static_layer p s) as [l s1 | m s1 | s1].
  - destruct Hst as (Hl1 & ies & Hlog1 & Hstart).
    pose proof (uniform_shape (RandomLayer_call l) d min max
                  (S (List.length (script s1))) s1) as (ds & s2 & Hds & Ho).
    pose proof (draws_within_fuel _ _ _ _ Hds) as Hfuel.
    apply draws_segments in Hds as (es & (Hl2 & Hlog2) & Hsegs).
    destruct (uniform_int_distribution_call (RandomLayer_call l) d min max
                (S (List.length (script s1))) s1) as [v s' | m s' | s'].
    + subst s'. eapply ex_returned; eauto.
      * eapply logged_trans; eauto.
      * congruence.
    + pose proof (RandomLayer_call_spec l s2) as Hc. rewrite Ho in Hc.
      destruct Hc as (tail & (Hl3 & Hlog3) & Hab).
      eapply ex_draw_aborted; eauto.
      * eapply logged_trans; [exact Hlog1 |].
        eapply logged_trans; eauto.
      * congruence.
    + destruct Ho as [Ho | [_ Hf]]; [| lia].
      pose proof (RandomLayer_call_spec l s2) as Hc. rewrite Ho in Hc.
      destruct Hc as (tail & (Hl3 & Hlog3) & Hpe & Hnil).
      eapply ex_draw_starved; eauto.
      * eapply logged_trans; [exact Hlog1 |].
        eapply logged_trans; eauto.
      * congruence.
  - destruct Hst as (Hl & Hl1 & ies & Hlog & Hab).
    eapply ex_ctor_aborted; eauto.
  - destruct Hst as (Hl & -> & Hnil). now apply ex_ctor_starved.
Qed.

(** The value [rand] returns is the one the distribution computes from
    the values drawn during the call. *)
Lemma rand_Returned (p : platform) (d : remapping) (min max : Z) s v s' :
  rand p d min max s = Returned v s' ->
  exists l ies ds es,
    started p s l ies /\ segments l ds es /\
    logged s (ies ++ es) s' /\ layer s' = Some l /\
    ds <> [] /\
    uniform_int_distribution_call list_urng d min max (List.length ds) ds
    = Returned v [].
Proof.
  unfold rand. intros H. apply bind_Returned in H as (l & s1 & Hst & H).
  pose proof (static_layer_spec p s) as Hs. rewrite Hst in Hs.
  destruct Hs as (Hl1 & ies & Hlog1 & Hstart).
  apply (uniform_value _ (RandomLayer_call_bounded l)) in H
    as (ds & Hds & Hne & Hv).
  apply draws_segments in Hds as (es & (Hl2 & Hlog2) & Hsegs).
  exists l, ies, ds, es. splits; auto.
  - eapply logged_trans; eauto.
  - congruence.
Qed.

(** ** Two generators in step *)

Section Lockstep.

Context {St1 St2 : Type}.
Variable g1 : M St1 Z.
Variable g2 : M St2 Z.
Variable R : St1 -> St2 -> Prop.

Local Abbreviation follows := (follows R).

Hypothesis g_follows : forall s1 s2, R s1 s2 -> follows (g2 s2) (g1 s1).

Lemma mret_follows {A : Type} (a : A) s1 s2 :
  R s1 s2 -> follows (mret a s2) (mret a s1).
Proof. intros H. exists s1. now split. Qed.

Lemma starve_follows {A : Type} s1 s2 :
  follows (@starve St2 A s2) (@starve St1 A s1).
Proof. now exists s1. Qed.

Lemma bind_follows {A B : Type} (c1 : M St1 A) (c2 : M St2 A)
    (k1 : A -> M St1 B) (k2 : A -> M St2 B) s1 s2 :
  follows (c2 s2) (c1 s1) ->
  (forall a s1' s2', R s1' s2' -> follows (k2 a s2') (k1 a s1')) ->
  follows (bind c2 k2 s2) (bind c1 k1 s1).
Proof.
  intros Hc Hk. unfold bind. destruct (c2 s2) as [a s2' | m s2' | s2'].
  - destruct Hc as (s1' & -> & HR). now apply Hk.
  - exact I.
  - destruct Hc as (s1' & ->). now exists s1'.
Qed.

Lemma S_nd_while_follows fuel range thr prod s1 s2 :
  R s1 s2 ->
  follows (S_nd_while g2 fuel range thr prod s2)
          (S_nd_while g1 fuel range thr prod s1).
Proof.
  revert prod s1 s2. induction fuel as [| fuel IH]; intros prod s1 s2 HR;
    simpl; destruct (wrap32 prod <? thr).
  - apply starve_follows.
  - now apply mret_follows.
  - apply bind_follows; [now apply g_follows |].
    intros x s1' s2' HR'. now apply IH.
  - now apply mret_follows.
Qed.

Lemma two_div_do_while_follows fuel past s1 s2 :
  R s1 s2 ->
  follows (two_div_do_while g2 fuel past s2)
          (two_div_do_while g1 fuel past s1).
Proof.
  revert s1 s2. induction fuel as [| fuel IH]; intros s1 s2 HR; simpl.
  - now exists s1.
  - apply bind_follows; [now apply g_follows |].
    intros x s1' s2' HR'. cbv zeta.
    destruct (wrap32 (x - urngmin) >=? past).
    + now apply IH.
    + now apply mret_follows.
Qed.

Lemma uniform_follows (d : remapping) (a b : Z) fuel s1 s2 :
  R s1 s2 ->
  follows (uniform_int_distribution_call g2 d a b fuel s2)
          (uniform_int_distribution_call g1 d a b fuel s1).
Proof.
  intros HR. unfold uniform_int_distribution_call. cbv zeta.
  apply bind_follows; [| intros; now apply mret_follows].
  destruct (urngrange >? wrap32 (b - a)).
  - destruct d.
    + unfold S_nd. cbv zeta.
      apply bind_follows; [now apply g_follows |].
      intros x s1' s2' HR'.
      apply bind_follows; [| intros; now apply mret_follows].
      destruct (_ <? _).
      * now apply S_nd_while_follows.
      * now apply mret_follows.
    + apply bind_follows; [| intros; now apply mret_follows].
      now apply two_div_do_while_follows.
  - apply bind_follows; [now apply g_follows |].
    intros; now apply mret_follows.
Qed.

End Lockstep.

(** ** An operating system that serves every request *)

Lemma RandomLayer_call_served (p : platform) s ds :
  serves p s ds ->
  follows (serves p) (list_urng ds) (RandomLayer_call (served_layer p) s).
Proof.
  unfold serves. intros Hs. destruct ds as [| x ds]; simpl in *.
  - destruct p; simpl; unfold bind, os; rewrite Hs; eexists; reflexivity.
  - destruct p; simpl; unfold bind, os; rewrite Hs; simpl;
      eexists; split; reflexivity.
Qed.

Lemma rand_served (p : platform) (d : remapping) (min max : Z) (ds : list Z) :
  follows (serves p)
    (uniform_int_distribution_call list_urng d min max (S (List.length ds)) ds)
    (rand p d min max (served p ds)).
Proof.
  assert (Hst : exists s1, static_layer p (served p ds)
                           = Returned (served_layer p) s1 /\
                           serves p s1 ds).
  { destruct p; simpl; eexists; split; reflexivity. }
  destruct Hst as (s1 & Hst & Hs1).
  unfold rand. rewrite (bind_step _ _ _ _ _ Hst).
  replace (List.length (script s1)) with (List.length ds)
    by (rewrite Hs1; now rewrite length_map).
  apply uniform_follows with (R := serves p); [| exact Hs1].
  intros s ds' Hs. now apply RandomLayer_call_served.
Qed.

Lemma accepted_draw_accepted (d : remapping) (a b : Z) (fuel : nat) :
  exists v,
    uniform_int_distribution_call list_urng d a b (S fuel) [accepted_draw d]
    = Returned v [].
Proof.
  unfold uniform_int_distribution_call. cbv zeta.
  pose proof (wrap32_range (b - a)) as Hu.
  rewrite urngrange_eq.
  destruct (UINT32_MAX >? wrap32 (b - a)) eqn:E.
  - rewrite Z.gtb_ltb in E. apply Z.ltb_lt in E.
    set (range := wrap32 (wrap32 (b - a) + 1)).
    assert (Hr : 1 <= range <= UINT32_MAX).
    { unfold range. rewrite wrap32_small; lia. }
    destruct d; simpl accepted_draw.
    + unfold S_nd. cbv zeta. unfold bind at 1 2. simpl list_urng.
      rewrite (wrap32_small UINT32_MAX) by (unfold UINT32_MAX; lia).
      rewrite product_fits by (unfold UINT32_MAX in *; lia).
      assert (Hlow : wrap32 (UINT32_MAX * range) = 2 ^ 32 - range).
      { unfold wrap32.
        replace (UINT32_MAX * range) with (2 ^ 32 - range + (range - 1) * 2 ^ 32)
          by (unfold UINT32_MAX; lia).
        rewrite Z.mod_add by lia. apply Z.mod_small.
        unfold UINT32_MAX in *. lia. }
      assert (Hthr : wrap32 (- range) mod range <= 2 ^ 32 - range).
      { assert (Hneg : wrap32 (- range) = 2 ^ 32 - range).
        { unfold wrap32.
          replace (- range) with (2 ^ 32 - range + (-1) * 2 ^ 32) by lia.
          rewrite Z.mod_add by lia. apply Z.mod_small.
          unfold UINT32_MAX in *. lia. }
        rewrite Hneg. apply Z.mod_le; unfold UINT32_MAX in *; lia. }
      assert (Hw : S_nd_while list_urng (S fuel) range
                     (wrap32 (- range) mod range) (UINT32_MAX * range) []
                   = Returned (UINT32_MAX * range) []).
      { cbn [S_nd_while]. rewrite Hlow.
        destruct (2 ^ 32 - range <? wrap32 (- range) mod range) eqn:El;
          [apply Z.ltb_lt in El; lia | reflexivity]. }
      rewrite Hlow. unfold bind at 1.
      destruct (2 ^ 32 - range <? range).
      * rewrite Hw. eexists. reflexivity.
      * unfold mret. eexists. reflexivity.
    + unfold bind at 1 2. simpl two_div_do_while.
      unfold bind at 1. simpl list_urng.
      assert (Hpast : 1 <= wrap32 (range * (UINT32_MAX / range))).
      { assert (0 < UINT32_MAX / range) by (apply Z.div_str_pos; lia).
        pose proof (Z.mul_div_le UINT32_MAX range ltac:(lia)).
        rewrite wrap32_small; nia. }
      cbv beta iota zeta. change (wrap32 (wrap32 0 - urngmin)) with 0.
      destruct (0 >=? wrap32 (range * (UINT32_MAX / range))) eqn:Ep.
      * rewrite Z.geb_leb in Ep. apply Z.leb_le in Ep. lia.
      * unfold mret. eexists. reflexivity.
  - destruct d; unfold bind, mret, list_urng, accepted_draw;
      eexists; reflexivity.
Qed.

(** * The claims of the specification *)

(** ** The range of the result *)

Lemma rand_returns_when_served (p : platform) (d : remapping) (min max : Z)
    (ds : list Z) (v : Z) (rest : list Z) :
  uniform_int_distribution_call list_urng d min max (S (List.length ds)) ds
  = Returned v rest ->
  exists s', rand p d min max (served p ds) = Returned v s'.
Proof.
  intros H. pose proof (rand_served p d min max ds) as Hf.
  rewrite H in Hf. destruct Hf as (s' & Hr & _). now exists s'.
Qed.

Lemma rand_returns_on_accepted_draw (p : platform) (d : remapping)
    (min max : Z) :
  exists v s', rand p d min max (served p [accepted_draw d]) = Returned v s'.
Proof.
  destruct (accepted_draw_accepted d min max 1) as (v & Hv).
  apply (rand_returns_when_served p d min max [accepted_draw d]) in Hv
    as (s' & Hs').
  now exists v, s'.
Qed.

Lemma rand_range (p : platform) (d : remapping) (min max : Z) s v s' :
  is_uint32 min -> is_uint32 max -> min <= max ->
  rand p d min max s = Returned v s' -> min <= v <= max.
Proof.
  intros Hmin Hmax Hle H. unfold rand in H.
  apply bind_Returned in H as (l & s1 & _ & H).
  eapply uniform_range; [apply RandomLayer_call_bounded | | | | exact H];
    assumption.
Qed.

(** C1.  For 32-bit unsigned [min <= max], every value [rand min max]
    returns lies in the inclusive range [[min, max]], on every platform,
    with either remapping and from every state of the process; and [rand]
    does return: it returns whenever the operating system serves draws
    among which the distribution finds one to accept, and there is such a
    draw for every range. *)
Theorem rand_in_range (p : platform) (d : remapping) (min max : Z) :
  is_uint32 min -> is_uint32 max -> min <= max ->
  (forall s v s', rand p d min max s = Returned v s' -> min <= v <= max) /\
  (forall ds v rest,
      uniform_int_distribution_call list_urng d min max (S (List.length ds)) ds
      = Returned v rest ->
      exists s', rand p d min max (served p ds) = Returned v s') /\
  (exists v s',
      rand p d min max (served p [accepted_draw d]) = Returned v s' /\
      min <= v <= max).
Proof.
  intros Hmin Hmax Hle. splits.
  - intros s v s' H. eapply rand_range; eauto.
  - intros ds v rest H. eapply rand_returns_when_served; eauto.
  - destruct (rand_returns_on_accepted_draw p d min max) as (v & s' & H).
    exists v, s'. split; [exact H |]. eapply rand_range; eauto.
Qed.

Lemma rand_in_range_witness :
  100 <= 200 /\
  exists v s',
    rand Linux NearlyDivisionless 100 200
      (served Linux [accepted_draw NearlyDivisionless]) = Returned v s' /\
    100 <= v <= 200.
Proof.
  split; [lia |].
  apply (rand_in_range Linux NearlyDivisionless 100 200);
    unfold is_uint32, UINT32_MAX; lia.
Defined.

(** C3.  For every 32-bit unsigned [m], [rand m m] returns nothing but
    [m], and it does return [m] when the operating system serves a draw
    the distribution accepts; so it is for [rand 0 0] and [rand 5 5]. *)
Theorem rand_single_value (p : platform) (d : remapping) (m : Z) :
  is_uint32 m ->
  (forall s v s', rand p d m m s = Returned v s' -> v = m) /\
  (exists s', rand p d m m (served p [accepted_draw d]) = Returned m s').
Proof.
  intros Hm. split.
  - intros s v s' H.
    apply rand_range in H; [lia | assumption | assumption | lia].
  - destruct (rand_returns_on_accepted_draw p d m m) as (v & s' & H).
    exists s'. pose proof H as H'.
    apply rand_range in H'; [| assumption | assumption | lia].
    now replace m with v at 3 by lia.
Qed.

Lemma rand_single_value_witness :
  (forall s v s', rand Posix TwoDivisions 5 5 s = Returned v s' -> v = 5) /\
  (forall s v s', rand Linux NearlyDivisionless 0 0 s = Returned v s' -> v = 0).
Proof.
  split.
  - apply (rand_single_value Posix TwoDivisions 5).
    unfold is_uint32, UINT32_MAX; lia.
  - apply (rand_single_value Linux NearlyDivisionless 0).
    unfold is_uint32, UINT32_MAX; lia.
Defined.

(** C9.  For the full range, [rand 0 (2^32 - 1)] is one call of the
    generator and nothing else: it makes exactly one draw and returns the
    value drawn unchanged, rejecting nothing. *)
Theorem rand_full_range (p : platform) (d : remapping) (s : process) :
  rand p d 0 UINT32_MAX s = (l <- static_layer p ;; RandomLayer_call l) s.
Proof.
  unfold rand. apply bind_ext_r. intros l s1 _.
  unfold uniform_int_distribution_call. cbv zeta.
  change (wrap32 (UINT32_MAX - 0)) with UINT32_MAX.
  change (urngrange >? UINT32_MAX) with false. cbv iota.
  unfold bind, mret.
  destruct (RandomLayer_call l s1) as [x s2 | m s2 | s2] eqn:Hx;
    try reflexivity.
  apply RandomLayer_call_bounded in Hx.
  unfold urngmin, RandomLayer_min, numeric_limits_min.
  rewrite Z.sub_0_r, Z.add_0_r, !wrap32_small; try reflexivity;
    try rewrite wrap32_small; assumption.
Qed.

(** ** What the log says about a run *)

Lemma since_logged s es s' : logged s es s' -> since s s' = es.
Proof.
  intros (Ht & _). unfold since. rewrite Ht.
  rewrite skipn_app, skipn_all, Nat.sub_diag. reflexivity.
Qed.

Lemma raw_draws_app es1 es2 :
  raw_draws (es1 ++ es2) = raw_draws es1 ++ raw_draws es2.
Proof.
  induction es1 as [| e es1 IH]; simpl; [reflexivity |].
  destruct (delivered e); simpl; now rewrite IH.
Qed.

Lemma short_read_verdict r :
  short_read r -> verdict_of (Getrandom 4 0, r) = ShortRead.
Proof.
  intros [H0 H4]. simpl.
  destruct (r_ret r =? 4) eqn:E4; [apply Z.eqb_eq in E4; contradiction |].
  destruct (r_ret r <? 0) eqn:E0; [apply Z.ltb_lt in E0; lia | reflexivity].
Qed.

Lemma short_read_delivers_nothing r :
  short_read r -> delivered (Getrandom 4 0, r) = None.
Proof.
  intros [H0 H4]. simpl.
  destruct (r_ret r =? 4) eqn:E4; [apply Z.eqb_eq in E4; contradiction |].
  reflexivity.
Qed.

Lemma raw_draws_shorts shorts :
  Forall short_read shorts -> raw_draws (getrandom_entries shorts) = [].
Proof.
  induction 1 as [| r rs Hr _ IH]; [reflexivity |].
  cbn [getrandom_entries map raw_draws].
  now rewrite (short_read_delivers_nothing r Hr).
Qed.

Lemma segment_raw_draws l x es : segment l x es -> raw_draws es = [x].
Proof.
  destruct 1 as [fn r Hr | shorts r HF Hlen Hr | f r Hr].
  - simpl. apply Z.eqb_neq in Hr. now rewrite Hr.
  - rewrite raw_draws_app, (raw_draws_shorts _ HF). simpl.
    apply Z.eqb_eq in Hr. now rewrite Hr.
  - simpl. apply Z.eqb_eq in Hr. now rewrite Hr.
Qed.

Lemma segments_raw_draws l ds es : segments l ds es -> raw_draws es = ds.
Proof.
  induction 1 as [| x es ds es' Hseg _ IH]; [reflexivity |].
  now rewrite raw_draws_app, (segment_raw_draws _ _ _ Hseg), IH.
Qed.

Lemma constructed_raw_draws p l es : constructed p l es -> raw_draws es = [].
Proof. now destruct 1. Qed.

Lemma started_raw_draws p s l es : started p s l es -> raw_draws es = [].
Proof.
  intros [[_ ->] | [_ H]]; [reflexivity |].
  eapply constructed_raw_draws; eauto.
Qed.

(** The value returned, as a function of the values drawn. *)
Lemma rand_sample (p : platform) (d : remapping) (min max : Z) s v s' :
  rand p d min max s = Returned v s' ->
  sample d min max (raw_draws (since s s')) = Some v.
Proof.
  intros H. apply rand_Returned in H
    as (l & ies & ds & es & Hst & Hsegs & Hlog & _ & _ & Hv).
  rewrite (since_logged _ _ _ Hlog), raw_draws_app.
  rewrite (started_raw_draws _ _ _ _ Hst), (segments_raw_draws _ _ _ Hsegs).
  simpl. unfold sample. now rewrite Hv.
Qed.

(** C10.  The value [rand min max] returns is a function, [sample], of
    [min], [max] and the sequence of raw 32-bit values drawn during the
    call; so two runs that drew the same values return the same result,
    whatever else differs between them: the platform, the state of the
    process, short reads that were retried, or values left undrawn. *)
Theorem rand_deterministic (d : remapping) (min max : Z) :
  (forall p s v s',
      rand p d min max s = Returned v s' ->
      sample d min max (raw_draws (since s s')) = Some v) /\
  (forall p1 p2 s1 s2 v1 v2 s1' s2',
      rand p1 d min max s1 = Returned v1 s1' ->
      rand p2 d min max s2 = Returned v2 s2' ->
      raw_draws (since s1 s1') = raw_draws (since s2 s2') ->
      v1 = v2).
Proof.
  split.
  - intros p s v s'. apply rand_sample.
  - intros p1 p2 s1 s2 v1 v2 s1' s2' H1 H2 Heq.
    apply rand_sample in H1. apply rand_sample in H2.
    rewrite Heq in H1. congruence.
Qed.

Lemma rand_deterministic_witness :
  exists v1 v2 s1' s2',
    rand Linux NearlyDivisionless 1 6 example_linux_process = Returned v1 s1' /\
    rand Posix NearlyDivisionless 1 6 example_posix_process = Returned v2 s2' /\
    v1 = v2.
Proof.
  eexists. eexists. eexists. eexists.
  split; [vm_compute; reflexivity |].
  split; [vm_compute; reflexivity |].
  apply (proj2 (rand_deterministic NearlyDivisionless 1 6)
           Linux Posix example_linux_process example_posix_process
           _ _ _ _ eq_refl eq_refl).
  vm_compute. reflexivity.
Defined.

(** ** Failures *)

Lemma no_failure_app es1 es2 :
  no_failure es1 -> no_failure es2 -> no_failure (es1 ++ es2).
Proof. unfold no_failure. intros. apply Forall_app. now split. Qed.

Lemma no_failure_shorts shorts :
  Forall short_read shorts -> no_failure (getrandom_entries shorts).
Proof.
  induction 1 as [| r rs Hr _ IH]; [constructor |].
  constructor; [| exact IH]. now rewrite (short_read_verdict r Hr).
Qed.

Lemma shorts_verdicts shorts :
  Forall short_read shorts ->
  Forall (fun e => verdict_of e = ShortRead) (getrandom_entries shorts).
Proof.
  induction 1 as [| r rs Hr _ IH]; [constructor |].
  constructor; [| exact IH]. now apply short_read_verdict.
Qed.

Lemma segment_no_failure l x es : segment l x es -> no_failure es.
Proof.
  destruct 1 as [fn r Hr | shorts r HF Hlen Hr | f r Hr].
  - constructor; [| constructor]. simpl.
    apply Z.eqb_neq in Hr. now rewrite Hr.
  - apply no_failure_app; [now apply no_failure_shorts |].
    constructor; [| constructor]. simpl.
    apply Z.eqb_eq in Hr. now rewrite Hr.
  - constructor; [| constructor]. simpl.
    apply Z.eqb_eq in Hr. now rewrite Hr.
Qed.

Lemma segments_no_failure l ds es : segments l ds es -> no_failure es.
Proof.
  induction 1 as [| x es ds es' Hseg _ IH]; [constructor |].
  apply no_failure_app; [eapply segment_no_failure; eauto | exact IH].
Qed.

Lemma constructed_no_failure p l es : constructed p l es -> no_failure es.
Proof.
  destruct 1 as [r Hr | | r Hr]; try constructor; try constructor; simpl;
    apply Z.eqb_neq in Hr; now rewrite Hr.
Qed.

Lemma started_no_failure p s l es : started p s l es -> no_failure es.
Proof.
  intros [[_ ->] | [_ H]]; [constructor |].
  eapply constructed_no_failure; eauto.
Qed.

Lemma pending_no_failure l es : pending l es -> no_failure es.
Proof.
  destruct 1 as [fn | shorts HF Hlen | f]; try constructor.
  now apply no_failure_shorts.
Qed.

Lemma short_runs_shorts rest shorts (run : nat) :
  Forall short_read shorts ->
  (run + List.length shorts < RETRY_MAX)%nat ->
  short_runs_below RETRY_MAX run (getrandom_entries shorts ++ rest)
  = match shorts with
    | [] => short_runs_below RETRY_MAX run rest
    | _ => short_runs_below RETRY_MAX (run + List.length shorts) rest
    end.
Proof.
  intros HF. revert run.
  induction HF as [| r rs Hr _ IH]; intros run Hlen; [reflexivity |].
  cbn [getrandom_entries map app short_runs_below].
  fold (getrandom_entries rs).
  rewrite (short_read_verdict r Hr).
  simpl List.length in *.
  assert (Hlt : (S run <? RETRY_MAX)%nat = true) by (apply Nat.ltb_lt; lia).
  rewrite Hlt, IH by lia. simpl andb.
  destruct rs; simpl List.length.
  - now rewrite Nat.add_1_r.
  - f_equal. lia.
Qed.

Lemma segment_short_runs l x es rest :
  segment l x es ->
  short_runs_below RETRY_MAX 0 (es ++ rest) = short_runs_below RETRY_MAX 0 rest.
Proof.
  destruct 1 as [fn r Hr | shorts r HF Hlen Hr | f r Hr].
  - cbn [app short_runs_below verdict_of].
    apply Z.eqb_neq in Hr. now rewrite Hr.
  - rewrite <- app_assoc, short_runs_shorts by (auto; simpl; lia).
    apply Z.eqb_eq in Hr.
    destruct shorts; cbn [app short_runs_below verdict_of]; now rewrite Hr.
  - cbn [app short_runs_below verdict_of].
    apply Z.eqb_eq in Hr. now rewrite Hr.
Qed.

Lemma segments_short_runs l ds es rest :
  segments l ds es ->
  short_runs_below RETRY_MAX 0 (es ++ rest) = short_runs_below RETRY_MAX 0 rest.
Proof.
  induction 1 as [| x es ds es' Hseg _ IH]; [reflexivity |].
  now rewrite <- app_assoc, (segment_short_runs _ _ _ _ Hseg).
Qed.

Lemma started_short_runs p s l ies rest :
  started p s l ies ->
  short_runs_below RETRY_MAX 0 (ies ++ rest) = short_runs_below RETRY_MAX 0 rest.
Proof.
  intros [[_ ->] | [_ H]]; [reflexivity |].
  destruct H as [r Hr | | r Hr]; try reflexivity;
    cbn [app short_runs_below verdict_of];
    apply Z.eqb_neq in Hr; now rewrite Hr.
Qed.

Lemma abort_cause_after m pre es :
  no_failure pre -> abort_cause m es -> abort_cause m (pre ++ es).
Proof.
  intros Hpre (before & last & -> & Hb & Hc).
  exists (pre ++ before), last. splits.
  - now rewrite app_assoc.
  - now apply no_failure_app.
  - destruct Hc as [Hc | (Hm & pre' & shorts & Heq & Hlen & HF)];
      [now left | right].
    split; [exact Hm |]. exists (pre ++ pre'), shorts.
    splits; auto. now rewrite Heq, app_assoc.
Qed.

Lemma aborted_cause l m es :
  aborted l m es -> abort_cause m es /\ m_format m <> "".
Proof.
  destruct 1 as [fn r Hr | shorts r HF Hlen Hr | shorts HF Hlen | f r Hr].
  - split; [| discriminate]. exists [], (ProcessPrng fn 4, r).
    splits; [reflexivity | constructor |]. left. split.
    + simpl. apply Z.eqb_eq in Hr. now rewrite Hr.
    + discriminate.
  - split; [| discriminate].
    exists (getrandom_entries shorts), (Getrandom 4 0, r).
    splits; [reflexivity | now apply no_failure_shorts |]. left. split.
    + simpl. destruct (r_ret r =? 4) eqn:E4; [apply Z.eqb_eq in E4; lia |].
      apply Z.ltb_lt in Hr. now rewrite Hr.
    + reflexivity.
  - split; [| discriminate].
    destruct shorts as [| a [| b [| c [| e rest]]]]; try discriminate.
    exists (getrandom_entries [a; b]), (Getrandom 4 0, c).
    splits; [reflexivity | |].
    + apply no_failure_shorts. inversion HF as [| ? ? Ha HF']; subst.
      inversion HF' as [| ? ? Hb HF'']; subst.
      constructor; [exact Ha |]. constructor; [exact Hb | constructor].
    + right. split; [reflexivity |].
      exists [], (getrandom_entries [a; b; c]).
      splits; [reflexivity | reflexivity | now apply shorts_verdicts].
  - split; [| discriminate]. exists [], (Fread 4 1 f, r).
    splits; [reflexivity | constructor |]. left. split.
    + simpl. apply Z.eqb_neq in Hr. now rewrite Hr.
    + reflexivity.
Qed.

Lemma ctor_aborted_cause p m es :
  ctor_aborted p m es -> abort_cause m es /\ m_format m <> "".
Proof.
  destruct 1 as [r Hr | r Hr]; (split; [| discriminate]).
  - exists [], (LoadWinAPI "BCryptPrimitives.dll" "ProcessPrng", r).
    splits; [reflexivity | constructor |]. left. split.
    + simpl. apply Z.eqb_eq in Hr. now rewrite Hr.
    + discriminate.
  - exists [], (Fopen "/dev/urandom" "rb", r).
    splits; [reflexivity | constructor |]. left. split.
    + simpl. apply Z.eqb_eq in Hr. now rewrite Hr.
    + reflexivity.
Qed.

(** Every abort of [rand] has a cause in the log. *)
Lemma rand_Fatal (p : platform) (d : remapping) (min max : Z) s m s' :
  rand p d min max s = Fatal m s' ->
  abort_cause m (since s s') /\ m_format m <> "".
Proof.
  intros H. pose proof (rand_exchange p d min max s) as He.
  rewrite H in He. inversion He as
      [ | m' ies s'' Hl Hab Hlog Hl' | l ies ds es tail m' s'' Hst Hsegs Hab Hlog Hl'
        | | ]; subst.
  - rewrite (since_logged _ _ _ Hlog). eapply ctor_aborted_cause; eauto.
  - rewrite (since_logged _ _ _ Hlog).
    apply aborted_cause in Hab as [Hc Hf]. split; [| exact Hf].
    apply abort_cause_after; [eapply started_no_failure; eauto |].
    apply abort_cause_after; [eapply segments_no_failure; eauto | exact Hc].
Qed.

(** Without a reply the model stops; nothing has failed then. *)
Lemma rand_Starved (p : platform) (d : remapping) (min max : Z) s s' :
  rand p d min max s = Starved s' ->
  script s' = [] /\ no_failure (since s s').
Proof.
  intros H. pose proof (rand_exchange p d min max s) as He.
  rewrite H in He. inversion He as
      [ | | | Hl Hnil | l ies ds es tail s'' Hst Hsegs Hpe Hlog Hl' Hnil]; subst.
  - split; [exact Hnil |]. unfold since. rewrite skipn_all. constructor.
  - split; [exact Hnil |]. rewrite (since_logged _ _ _ Hlog).
    apply no_failure_app; [eapply started_no_failure; eauto |].
    apply no_failure_app; [eapply segments_no_failure; eauto |].
    eapply pending_no_failure; eauto.
Qed.

(** C6.  [rand] hands no error back to its caller.  When it returns, no
    exchange with the OS during the call failed, short reads were retried
    fewer than [RETRY_MAX] times in a row, and the value is computed from
    the values the OS delivered and from nothing else.  Otherwise the
    process was ended by [qFatal], with a message that is not empty and
    that carries the error code and text of the OS where the failed call
    reports one; what failed is the last exchange of the process, or its
    last [RETRY_MAX] exchanges were short reads.  (The third outcome is
    the model's: the list of replies given to it was too short; nothing
    has failed then either.) *)
Theorem rand_fail_stop (p : platform) (d : remapping) (min max : Z)
    (s : process) :
  match rand p d min max s with
  | Returned v s' =>
      no_failure (since s s') /\
      short_runs_below RETRY_MAX 0 (since s s') = true /\
      sample d min max (raw_draws (since s s')) = Some v
  | Fatal m s' =>
      m_format m <> "" /\ abort_cause m (since s s')
  | Starved s' =>
      script s' = [] /\ no_failure (since s s')
  end.
Proof.
  destruct (rand p d min max s) as [v s' | m s' | s'] eqn:H.
  - pose proof (rand_sample _ _ _ _ _ _ _ H) as Hv.
    apply rand_Returned in H
      as (l & ies & ds & es & Hst & Hsegs & Hlog & _ & _ & _).
    rewrite (since_logged _ _ _ Hlog) in *. splits.
    + apply no_failure_app; [eapply started_no_failure; eauto |].
      eapply segments_no_failure; eauto.
    + rewrite (started_short_runs _ _ _ _ _ Hst).
      rewrite <- (app_nil_r es).
      now rewrite (segments_short_runs _ _ _ _ Hsegs).
    + exact Hv.
  - apply rand_Fatal in H as [Hc Hf]. now split.
  - now apply rand_Starved in H.
Qed.

(** C8.  [rand] does not look at the order of its arguments.  Whatever
    [min] and [max] are, inverted or not, an abort of [rand] has its cause
    in an exchange with the OS, and when the OS serves a draw the
    distribution accepts, [rand] returns a value: no error is reported
    for an inverted range.  What is returned is what the distribution
    makes of the pair. *)
Theorem rand_no_validation (p : platform) (d : remapping) (min max : Z) :
  (forall s m s',
      rand p d min max s = Fatal m s' -> abort_cause m (since s s')) /\
  (exists v s',
      rand p d min max (served p [accepted_draw d]) = Returned v s') /\
  (forall s,
      rand p d min max s
      = (l <- static_layer p ;;
         fun s1 =>
           uniform_int_distribution_call (RandomLayer_call l) d min max
             (S (List.length (script s1))) s1) s).
Proof.
  splits.
  - intros s m s' H. now apply rand_Fatal in H.
  - apply rand_returns_on_accepted_draw.
  - reflexivity.
Qed.

Example rand_inverted_range :
  exists s',
    rand Linux NearlyDivisionless 5 3 (served Linux [3000000000])
    = Returned 3000000004 s'.
Proof. eexists. vm_compute. reflexivity. Qed.

(** ** A series of calls, and the exit *)

Lemma exchange_same_end {A B : Type} p s (o : outcome process A)
    (o' : outcome process B) :
  same_end o o' -> exchange p s o -> exchange p s o'.
Proof.
  intros Hse He. destruct He; destruct o'; simpl in Hse; try contradiction.
  - subst. eapply ex_returned; eauto.
  - destruct Hse as [<- <-]. eapply ex_ctor_aborted; eauto.
  - destruct Hse as [<- <-]. eapply ex_draw_aborted; eauto.
  - subst. now apply ex_ctor_starved.
  - subst. eapply ex_draw_starved; eauto.
Qed.

Lemma bind_mret_same_end {A B : Type} (c : M process A) (f : A -> B) s :
  same_end (c s) (bind c (fun a => mret (f a)) s).
Proof. unfold bind, mret. destruct (c s); simpl; auto. Qed.

Lemma segments_app l ds1 es1 ds2 es2 :
  segments l ds1 es1 -> segments l ds2 es2 ->
  segments l (ds1 ++ ds2) (es1 ++ es2).
Proof.
  induction 1 as [| x es ds es' Hseg _ IH]; intros H2; simpl; [exact H2 |].
  rewrite <- app_assoc. constructor; [exact Hseg | now apply IH].
Qed.

Lemma started_again p s l ies (Hl : layer s = Some l) l' :
  started p s l' ies -> l' = l /\ ies = [].
Proof.
  intros [[Hl' ->] | [Hl' _]]; [| congruence].
  split; [congruence | reflexivity].
Qed.

(** A call that returned, followed by more of the same process. *)
Lemma exchange_seq {A B : Type} p s (a : A) s1 (o : outcome process B) :
  exchange p s (Returned a s1) -> exchange p s1 o -> exchange p s o.
Proof.
  intros H1 H2.
  inversion H1 as [l ies ds es a' s1' Hst Hsegs Hlog Hl | | | | ]; subst.
  destruct H2 as
      [l' ies' ds' es' b s' Hst' Hsegs' Hlog' Hl'
      | m ies' s' Hn _ _ _
      | l' ies' ds' es' tail m s' Hst' Hsegs' Hab Hlog' Hl'
      | Hn _
      | l' ies' ds' es' tail s' Hst' Hsegs' Hpe Hlog' Hl' Hnil];
    try congruence;
    destruct (started_again p s1 l ies' Hl l' Hst') as [-> ->];
    simpl in Hlog'.
  - eapply ex_returned; [exact Hst | exact (segments_app _ _ _ _ _ Hsegs Hsegs') | | exact Hl'].
    rewrite app_assoc. eapply logged_trans; eauto.
  - eapply ex_draw_aborted;
      [exact Hst | exact (segments_app _ _ _ _ _ Hsegs Hsegs') | exact Hab | | exact Hl'].
    rewrite <- app_assoc, app_assoc. eapply logged_trans; eauto.
  - eapply ex_draw_starved;
      [exact Hst | exact (segments_app _ _ _ _ _ Hsegs Hsegs') | exact Hpe | | exact Hl'
      | exact Hnil].
    rewrite <- app_assoc, app_assoc. eapply logged_trans; eauto.
Qed.

Lemma rands_exchange (p : platform) (d : remapping) (reqs : list (Z * Z)) s :
  reqs <> [] -> exchange p s (rands p d reqs s).
Proof.
  revert s. induction reqs as [| [min max] reqs IH]; intros s Hne;
    [contradiction |].
  cbn [rands]. pose proof (rand_exchange p d min max s) as He.
  unfold bind at 1.
  destruct (rand p d min max s) as [v s1 | m s1 | s1].
  - destruct reqs as [| req reqs'].
    + simpl. unfold bind, mret. simpl.
      eapply exchange_same_end; [| exact He]. reflexivity.
    + eapply exchange_seq; [exact He |].
      eapply exchange_same_end; [apply bind_mret_same_end |].
      apply IH. discriminate.
  - eapply exchange_same_end; [| exact He]. now split.
  - eapply exchange_same_end; [| exact He]. reflexivity.
Qed.

Lemma pending_nil l : pending l [].
Proof.
  destruct l; try constructor.
  apply (pend_linux []); [constructor | unfold RETRY_MAX; simpl; lia].
Qed.

Lemma run_life (p : platform) (d : remapping) (reqs : list (Z * Z)) s :
  reqs <> [] -> life p s (run p d reqs s).
Proof.
  intros Hne. unfold run. pose proof (rands_exchange p d reqs s Hne) as He.
  unfold bind at 1. destruct (rands p d reqs s) as [vs s1 | m s1 | s1].
  - inversion He as [l ies ds es a' s1' Hst Hsegs Hlog Hl | | | | ]; subst.
    unfold bind, process_exit. rewrite Hl.
    destruct l as [fn | | f]; simpl.
    + eapply life_exited; [exact Hst | exact Hsegs | constructor |].
      now rewrite app_nil_r.
    + eapply life_exited; [exact Hst | exact Hsegs | constructor |].
      now rewrite app_nil_r.
    + unfold bind, os. destruct (script s1) as [| r rest] eqn:Es.
      * eapply life_starved;
          [exact Hst | exact Hsegs | apply pending_nil | | exact Es].
        now rewrite app_nil_r.
      * simpl. eapply life_exited;
          [exact Hst | exact Hsegs | apply (des_posix f r) |].
        rewrite app_assoc. eapply logged_trans; [exact Hlog |].
        unfold logged. simpl. now rewrite Es.
  - inversion He; subst.
    + eapply life_ctor_aborted; eauto.
    + eapply life_draw_aborted; eauto.
  - inversion He; subst.
    + now apply life_ctor_starved.
    + eapply life_starved; eauto.
Qed.

(** ** The three variants, from first call to exit *)

Lemma segments_posix f ds es :
  segments (PosixLayer f) ds es ->
  exists rs, es = fread_entries f rs /\ Forall (fun r => r_ret r = 1) rs.
Proof.
  induction 1 as [| x es ds es' Hseg _ (rs & -> & HF)].
  - exists []. split; [reflexivity | constructor].
  - inversion Hseg as [| | f' r Hr]; subst.
    exists (r :: rs). split; [reflexivity | now constructor].
Qed.

Lemma segments_win fn ds es :
  segments (WinLayer fn) ds es ->
  exists rs, es = prng_entries fn rs /\ Forall (fun r => r_ret r <> 0) rs.
Proof.
  induction 1 as [| x es ds es' Hseg _ (rs & -> & HF)].
  - exists []. split; [reflexivity | constructor].
  - inversion Hseg as [fn' r Hr | |]; subst.
    exists (r :: rs). split; [reflexivity | now constructor].
Qed.

Lemma logged_boot replies es s' :
  logged (boot replies) es s' ->
  trace s' = es /\ replies = map snd es ++ script s'.
Proof. intros (Ht & Hs). simpl in *. now split. Qed.

Lemma started_boot p replies l ies :
  started p (boot replies) l ies -> constructed p l ies.
Proof. intros [[Hl _] | [_ H]]; [discriminate | exact H]. Qed.

Lemma urandom_draw (f : Z) (s : process) :
  match RandomLayer_call (PosixLayer f) s with
  | Returned x s' =>
      exists r,
        since s s' = [(Fread 4 1 f, r)] /\ r_ret r = 1 /\ x = wrap32 (r_buf r)
  | Fatal m s' =>
      exists r,
        since s s' = [(Fread 4 1 f, r)] /\ r_ret r <> 1 /\
        m = Message "Read /dev/urandom error. Reason: %s. Error code: %d."
              [ArgStrerror (r_errno r); ArgInt (r_errno r)]
  | Starved s' => since s s' = [] /\ script s' = []
  end.
Proof.
  pose proof (RandomLayer_call_spec (PosixLayer f) s) as H.
  destruct (RandomLayer_call (PosixLayer f) s) as [x s' | m s' | s'].
  - destruct H as (es & (_ & Hlog) & Hseg).
    rewrite (since_logged _ _ _ Hlog).
    inversion Hseg as [| | f' r Hr]; subst. now exists r.
  - destruct H as (es & (_ & Hlog) & Hab).
    rewrite (since_logged _ _ _ Hlog).
    inversion Hab as [| | | f' r Hr]; subst. now exists r.
  - destruct H as (es & (_ & Hlog) & Hpe & Hnil).
    rewrite (since_logged _ _ _ Hlog). inversion Hpe; subst. now split.
Qed.

(** C4.  The fallback variant, over the life of a process.  Nothing is
    opened before the first call of [rand].  The first call opens
    [/dev/urandom] in mode ["rb"], and nothing is opened again; if the
    device cannot be opened the process is aborted with the error code
    and text of the OS, having done nothing else.  After that every
    exchange up to the exit is a read of one item of exactly 4 bytes from
    the handle that was opened; a read that does not return 1 item aborts
    the process with the error code and text of the OS and is its last
    exchange; and a process that exits normally closes that handle as its
    last exchange.  A draw is one such read: it returns the four bytes
    read, or it is the read that aborts the process. *)
Theorem urandom_lifecycle (d : remapping) (reqs : list (Z * Z))
    (replies : list os_reply) :
  (forall f s,
      match RandomLayer_call (PosixLayer f) s with
      | Returned x s' =>
          exists r,
            since s s' = [(Fread 4 1 f, r)] /\ r_ret r = 1 /\
            x = wrap32 (r_buf r)
      | Fatal m s' =>
          exists r,
            since s s' = [(Fread 4 1 f, r)] /\ r_ret r <> 1 /\
            m = Message "Read /dev/urandom error. Reason: %s. Error code: %d."
                  [ArgStrerror (r_errno r); ArgInt (r_errno r)]
      | Starved s' => since s s' = [] /\ script s' = []
      end) /\
  match reqs, replies with
  | [], _ => run Posix d reqs (boot replies) = Returned [] (boot replies)
  | _ :: _, [] => run Posix d reqs (boot replies) = Starved (boot [])
  | _ :: _, r0 :: _ =>
      let opened := (Fopen "/dev/urandom" "rb", r0) in
      if r_ret r0 =? 0
      then
        exists s',
          run Posix d reqs (boot replies)
          = Fatal (Message
                     "Failed to open /dev/urandom. Reason: %s. Error code: %d."
                     [ArgStrerror (r_errno r0); ArgInt (r_errno r0)]) s' /\
          trace s' = [opened]
      else
        exists rs,
          Forall (fun r => r_ret r = 1) rs /\
          match run Posix d reqs (boot replies) with
          | Returned _ s' =>
              exists rc,
                trace s'
                = opened :: fread_entries (r_ret r0) rs
                    ++ [(Fclose (r_ret r0), rc)]
          | Fatal m s' =>
              exists r,
                r_ret r <> 1 /\
                trace s'
                = opened :: fread_entries (r_ret r0) rs
                    ++ [(Fread 4 1 (r_ret r0), r)] /\
                m = Message
                      "Read /dev/urandom error. Reason: %s. Error code: %d."
                      [ArgStrerror (r_errno r); ArgInt (r_errno r)]
          | Starved s' =>
              trace s' = opened :: fread_entries (r_ret r0) rs /\
              script s' = []
          end
  end.
Proof.
  split; [apply urandom_draw |].
  destruct reqs as [| req reqs]; [reflexivity |].
  pose proof (run_life Posix d (req :: reqs) (boot replies) ltac:(discriminate))
    as Hlife.
  destruct (run Posix d (req :: reqs) (boot replies)) as [vs s' | m s' | s'].
  - inversion Hlife as [l ies ds es fin vs' s'' Hst Hsegs Hdes Hlog | | | |];
      subst.
    apply started_boot in Hst. inversion Hst as [| | r Hr]; subst.
    apply segments_posix in Hsegs as (rs & -> & HF).
    inversion Hdes as [| | f rc]; subst.
    apply logged_boot in Hlog as [Ht ->]. simpl.
    apply Z.eqb_neq in Hr. rewrite Hr.
    exists rs. split; [exact HF |]. exists rc. exact Ht.
  - inversion Hlife as
        [| m' ies s'' _ Hab Hlog
         | l ies ds es tail m' s'' Hst Hsegs Hab Hlog | |]; subst.
    + inversion Hab as [| r Hr]; subst.
      apply logged_boot in Hlog as [Ht ->]. simpl.
      apply Z.eqb_eq in Hr. rewrite Hr. exists s'. now split.
    + apply started_boot in Hst. inversion Hst as [| | r Hr]; subst.
      apply segments_posix in Hsegs as (rs & -> & HF).
      inversion Hab as [| | | f r' Hr']; subst.
      apply logged_boot in Hlog as [Ht ->]. simpl.
      apply Z.eqb_neq in Hr. rewrite Hr.
      exists rs. split; [exact HF |]. exists r'. now splits.
  - inversion Hlife as
        [| | | Hl Hnil | l ies ds es tail s'' Hst Hsegs Hpe Hlog Hnil]; subst.
    + simpl in Hnil. subst replies. reflexivity.
    + apply started_boot in Hst. inversion Hst as [| | r Hr]; subst.
      apply segments_posix in Hsegs as (rs & -> & HF).
      inversion Hpe; subst.
      apply logged_boot in Hlog as [Ht ->]. simpl.
      apply Z.eqb_neq in Hr. rewrite Hr.
      exists rs. split; [exact HF |]. split; [| exact Hnil].
      rewrite Ht. simpl. now rewrite app_nil_r.
Qed.

Lemma process_prng_draw (fn : Z) (s : process) :
  match RandomLayer_call (WinLayer fn) s with
  | Returned x s' =>
      exists r,
        since s s' = [(ProcessPrng fn 4, r)] /\ r_ret r <> 0 /\
        x = wrap32 (r_buf r)
  | Fatal m s' =>
      exists r,
        since s s' = [(ProcessPrng fn 4, r)] /\ r_ret r = 0 /\
        m = Message "ProcessPrng() failed." []
  | Starved s' => since s s' = [] /\ script s' = []
  end.
Proof.
  pose proof (RandomLayer_call_spec (WinLayer fn) s) as H.
  destruct (RandomLayer_call (WinLayer fn) s) as [x s' | m s' | s'].
  - destruct H as (es & (_ & Hlog) & Hseg).
    rewrite (since_logged _ _ _ Hlog).
    inversion Hseg as [fn' r Hr | |]; subst. now exists r.
  - destruct H as (es & (_ & Hlog) & Hab).
    rewrite (since_logged _ _ _ Hlog).
    inversion Hab as [fn' r Hr | | |]; subst. now exists r.
  - destruct H as (es & (_ & Hlog) & Hpe & Hnil).
    rewrite (since_logged _ _ _ Hlog). inversion Hpe; subst. now split.
Qed.

(** C5.  The Windows variant, over the life of a process.  Nothing is
    looked up before the first call of [rand].  The first call resolves
    [ProcessPrng] in [BCryptPrimitives.dll], once; if the lookup yields
    no function the process is aborted with a message saying so, having
    done nothing else.  After that every exchange is a call of the
    function that was resolved, on a buffer of 4 bytes; a call that does
    not report success aborts the process and is its last exchange, so
    nothing is tried again.  A draw is one such call: it returns the four
    bytes the function stored, or it is the call that aborts the
    process. *)
Theorem process_prng_lifecycle (d : remapping) (reqs : list (Z * Z))
    (replies : list os_reply) :
  (forall fn s,
      match RandomLayer_call (WinLayer fn) s with
      | Returned x s' =>
          exists r,
            since s s' = [(ProcessPrng fn 4, r)] /\ r_ret r <> 0 /\
            x = wrap32 (r_buf r)
      | Fatal m s' =>
          exists r,
            since s s' = [(ProcessPrng fn 4, r)] /\ r_ret r = 0 /\
            m = Message "ProcessPrng() failed." []
      | Starved s' => since s s' = [] /\ script s' = []
      end) /\
  match reqs, replies with
  | [], _ => run Windows d reqs (boot replies) = Returned [] (boot replies)
  | _ :: _, [] => run Windows d reqs (boot replies) = Starved (boot [])
  | _ :: _, r0 :: _ =>
      let resolved := (LoadWinAPI "BCryptPrimitives.dll" "ProcessPrng", r0) in
      if r_ret r0 =? 0
      then
        exists s',
          run Windows d reqs (boot replies)
          = Fatal (Message "Failed to load ProcessPrng()." []) s' /\
          trace s' = [resolved]
      else
        exists rs,
          Forall (fun r => r_ret r <> 0) rs /\
          match run Windows d reqs (boot replies) with
          | Returned _ s' =>
              trace s' = resolved :: prng_entries (r_ret r0) rs
          | Fatal m s' =>
              exists r,
                r_ret r = 0 /\
                trace s'
                = resolved :: prng_entries (r_ret r0) rs
                    ++ [(ProcessPrng (r_ret r0) 4, r)] /\
                m = Message "ProcessPrng() failed." []
          | Starved s' =>
              trace s' = resolved :: prng_entries (r_ret r0) rs /\
              script s' = []
          end
  end.
Proof.
  split; [apply process_prng_draw |].
  destruct reqs as [| req reqs]; [reflexivity |].
  pose proof (run_life Windows d (req :: reqs) (boot replies)
                ltac:(discriminate)) as Hlife.
  destruct (run Windows d (req :: reqs) (boot replies)) as [vs s' | m s' | s'].
  - inversion Hlife as [l ies ds es fin vs' s'' Hst Hsegs Hdes Hlog | | | |];
      subst.
    apply started_boot in Hst. inversion Hst as [r Hr | |]; subst.
    apply segments_win in Hsegs as (rs & -> & HF).
    inversion Hdes as [fn | |]; subst.
    apply logged_boot in Hlog as [Ht ->]. simpl.
    apply Z.eqb_neq in Hr. rewrite Hr.
    exists rs. split; [exact HF |]. rewrite Ht. simpl. now rewrite app_nil_r.
  - inversion Hlife as
        [| m' ies s'' _ Hab Hlog
         | l ies ds es tail m' s'' Hst Hsegs Hab Hlog | |]; subst.
    + inversion Hab as [r Hr |]; subst.
      apply logged_boot in Hlog as [Ht ->]. simpl.
      apply Z.eqb_eq in Hr. rewrite Hr. exists s'. now split.
    + apply started_boot in Hst. inversion Hst as [r Hr | |]; subst.
      apply segments_win in Hsegs as (rs & -> & HF).
      inversion Hab as [fn r' Hr' | | |]; subst.
      apply logged_boot in Hlog as [Ht ->]. simpl.
      apply Z.eqb_neq in Hr. rewrite Hr.
      exists rs. split; [exact HF |]. exists r'. now splits.
  - inversion Hlife as
        [| | | Hl Hnil | l ies ds es tail s'' Hst Hsegs Hpe Hlog Hnil]; subst.
    + simpl in Hnil. subst replies. reflexivity.
    + apply started_boot in Hst. inversion Hst as [r Hr | |]; subst.
      apply segments_win in Hsegs as (rs & -> & HF).
      inversion Hpe; subst.
      apply logged_boot in Hlog as [Ht ->]. simpl.
      apply Z.eqb_neq in Hr. rewrite Hr.
      exists rs. split; [exact HF |]. split; [| exact Hnil].
      rewrite Ht. simpl. now rewrite app_nil_r.
Qed.

(** ** The Linux variant *)

(** Short reads use up iterations of the loop and nothing else. *)
Lemma getrandom_loop_retries (shorts : list os_reply) :
  forall n s rest,
    Forall short_read shorts -> script s = shorts ++ rest ->
    getrandom_loop (List.length shorts + n) s
    = getrandom_loop n
        (Process (layer s) rest (trace s ++ getrandom_entries shorts)).
Proof.
  induction shorts as [| r shorts IH]; intros n s rest HF Hs.
  - destruct s as [l sc tr]. simpl in *. subst sc.
    now rewrite app_nil_r.
  - inversion HF as [| ? ? [H0 H4] HF']; subst.
    cbn [List.length Nat.add getrandom_loop]. unfold bind at 1. unfold os.
    rewrite Hs. cbn [app].
    apply Z.eqb_neq in H4. rewrite H4.
    destruct (r_ret r <? 0) eqn:E0; [apply Z.ltb_lt in E0; lia |].
    rewrite (IH n (Process (layer s) (shorts ++ rest)
                     (trace s ++ [(Getrandom 4 0, r)])) rest HF' eq_refl).
    cbn [layer trace]. now rewrite <- app_assoc.
Qed.

Lemma RETRY_MAX_split (k : nat) :
  (k < RETRY_MAX)%nat -> RETRY_MAX = (k + S (RETRY_MAX - 1 - k))%nat.
Proof. unfold RETRY_MAX. lia. Qed.

(** C2, amended.  One draw of the Linux variant calls
    [getrandom(&buf, 4, 0)] and nothing else: 4 bytes, flags 0, which is
    the default mode and not the non-blocking one.  It makes at most
    [RETRY_MAX] = 3 calls.  It returns the four bytes of the first call
    that returns 4, every call before that one having been a short read;
    a negative result aborts the process at once, with the error code and
    text of the OS; and [RETRY_MAX] short reads abort it with the message
    "too many retries".  Conversely, after fewer than [RETRY_MAX] short
    reads a full read is returned and a negative result aborts, and
    [RETRY_MAX] short reads abort. *)
Theorem getrandom_retry_policy (s : process) :
  (exists rs,
      since s (final_state (RandomLayer_call LinuxLayer s))
      = getrandom_entries rs /\
      Forall (fun e => fst e = Getrandom 4 0 /\
                       nonblocking_mode (fst e) = false)
        (getrandom_entries rs) /\
      (List.length rs <= RETRY_MAX)%nat /\
      match RandomLayer_call LinuxLayer s with
      | Returned x _ =>
          exists shorts r,
            rs = shorts ++ [r] /\ Forall short_read shorts /\
            r_ret r = 4 /\ x = wrap32 (r_buf r)
      | Fatal m _ =>
          (exists shorts r,
              rs = shorts ++ [r] /\ Forall short_read shorts /\
              r_ret r < 0 /\
              m = Message "getrandom() error. Reason: %s. Error code: %d."
                    [ArgStrerror (r_errno r); ArgInt (r_errno r)])
          \/
          (Forall short_read rs /\ List.length rs = RETRY_MAX /\
           m = Message "getrandom() failed. Reason: too many retries." [])
      | Starved s' =>
          Forall short_read rs /\ (List.length rs < RETRY_MAX)%nat /\
          script s' = []
      end) /\
  (forall shorts r rest,
      script s = shorts ++ r :: rest ->
      Forall short_read shorts -> (List.length shorts < RETRY_MAX)%nat ->
      (r_ret r = 4 ->
       exists s',
         RandomLayer_call LinuxLayer s = Returned (wrap32 (r_buf r)) s') /\
      (r_ret r < 0 ->
       exists s',
         RandomLayer_call LinuxLayer s
         = Fatal (Message "getrandom() error. Reason: %s. Error code: %d."
                    [ArgStrerror (r_errno r); ArgInt (r_errno r)]) s')) /\
  (forall shorts rest,
      script s = shorts ++ rest ->
      Forall short_read shorts -> List.length shorts = RETRY_MAX ->
      exists s',
        RandomLayer_call LinuxLayer s
        = Fatal (Message "getrandom() failed. Reason: too many retries." [])
            s').
Proof.
  splits.
  - assert (Hcalls : forall rs,
               Forall (fun e => fst e = Getrandom 4 0 /\
                                nonblocking_mode (fst e) = false)
                 (getrandom_entries rs)).
    { induction rs; constructor; auto. }
    pose proof (RandomLayer_call_spec LinuxLayer s) as H.
    destruct (RandomLayer_call LinuxLayer s) as [x s' | m s' | s']; simpl.
    + destruct H as (es & (_ & Hlog) & Hseg).
      rewrite (since_logged _ _ _ Hlog).
      inversion Hseg as [| shorts r HF Hlen Hr |]; subst.
      exists (shorts ++ [r]). splits; auto.
      * unfold getrandom_entries. now rewrite map_app.
      * rewrite length_app. simpl. lia.
      * now exists shorts, r.
    + destruct H as (es & (_ & Hlog) & Hab).
      rewrite (since_logged _ _ _ Hlog).
      inversion Hab as [| shorts r HF Hlen Hr | shorts HF Hlen |]; subst.
      * exists (shorts ++ [r]). splits; auto.
        -- unfold getrandom_entries. now rewrite map_app.
        -- rewrite length_app. simpl. lia.
        -- left. now exists shorts, r.
      * exists shorts. splits; auto. lia.
    + destruct H as (es & (_ & Hlog) & Hpe & Hnil).
      rewrite (since_logged _ _ _ Hlog).
      inversion Hpe as [| shorts HF Hlen |]; subst.
      exists shorts. splits; auto. lia.
  - intros shorts r rest Hs HF Hlen. unfold RandomLayer_call.
    rewrite (RETRY_MAX_split _ Hlen).
    rewrite (getrandom_loop_retries shorts _ s (r :: rest) HF Hs).
    cbn [getrandom_loop]. unfold bind, os. cbn [script].
    split; intros Hr.
    + apply Z.eqb_eq in Hr. rewrite Hr. eexists. reflexivity.
    + destruct (r_ret r =? 4) eqn:E4; [apply Z.eqb_eq in E4; lia |].
      apply Z.ltb_lt in Hr. rewrite Hr. eexists. reflexivity.
  - intros shorts rest Hs HF Hlen. unfold RandomLayer_call.
    rewrite <- Hlen, <- (Nat.add_0_r (List.length shorts)).
    rewrite (getrandom_loop_retries shorts _ s rest HF Hs).
    eexists. reflexivity.
Qed.

(** C2 as stated has the call made in non-blocking mode; the flags
    passed are 0, so the one call of this draw is not. *)
Lemma getrandom_not_in_nonblocking_mode :
  ~ Forall (fun e => nonblocking_mode (fst e) = true)
      (since (boot [Reply 4 7 0])
         (final_state (RandomLayer_call LinuxLayer (boot [Reply 4 7 0])))).
Proof.
  vm_compute. intros H. inversion H as [| ? ? Hhd _]. discriminate.
Qed.


(** * Further properties of the code *)

(** ** The generator contract *)


(** ** The static object *)

Lemma ctor_calls_app es1 es2 :
  ctor_calls (es1 ++ es2) = (ctor_calls es1 + ctor_calls es2)%nat.
Proof. unfold ctor_calls. now rewrite filter_app, length_app. Qed.

Lemma getrandom_entries_ctor_calls rs :
  ctor_calls (getrandom_entries rs) = 0%nat.
Proof. induction rs as [| r rs IH]; [reflexivity | exact IH]. Qed.

Lemma segment_ctor_calls l x es : segment l x es -> ctor_calls es = 0%nat.
Proof.
  destruct 1; try reflexivity.
  now rewrite ctor_calls_app, getrandom_entries_ctor_calls.
Qed.

Lemma segments_ctor_calls l ds es : segments l ds es -> ctor_calls es = 0%nat.
Proof.
  induction 1 as [| x es ds es' Hseg _ IH]; [reflexivity |].
  now rewrite ctor_calls_app, (segment_ctor_calls _ _ _ Hseg), IH.
Qed.

Lemma aborted_ctor_calls l m es : aborted l m es -> ctor_calls es = 0%nat.
Proof.
  destruct 1; try reflexivity.
  - now rewrite ctor_calls_app, getrandom_entries_ctor_calls.
  - apply getrandom_entries_ctor_calls.
Qed.

Lemma pending_ctor_calls l es : pending l es -> ctor_calls es = 0%nat.
Proof.
  destruct 1; try reflexivity. apply getrandom_entries_ctor_calls.
Qed.

Lemma destroyed_ctor_calls l es : destroyed l es -> ctor_calls es = 0%nat.
Proof. now destruct 1. Qed.

Lemma constructed_ctor_calls p l es :
  constructed p l es -> (ctor_calls es <= 1)%nat.
Proof. destruct 1; simpl; unfold ctor_calls; simpl; lia. Qed.

Lemma ctor_aborted_ctor_calls p m es :
  ctor_aborted p m es -> (ctor_calls es <= 1)%nat.
Proof. destruct 1; unfold ctor_calls; simpl; lia. Qed.

Lemma started_ctor_calls p s l es :
  started p s l es -> (ctor_calls es <= 1)%nat.
Proof.
  intros [[_ ->] | [_ H]]; [unfold ctor_calls; simpl; lia |].
  eapply constructed_ctor_calls; eauto.
Qed.

Lemma life_ctor_calls p s (o : outcome process (list Z)) :
  life p s o -> (ctor_calls (since s (final_state o)) <= 1)%nat.
Proof.
  destruct 1 as
      [l ies ds es fin vs s' Hst Hsegs Hdes Hlog
      | m ies s' Hl Hab Hlog
      | l ies ds es tail m s' Hst Hsegs Hab Hlog
      | Hl Hnil
      | l ies ds es tail s' Hst Hsegs Hpe Hlog Hnil]; simpl final_state.
  - rewrite (since_logged _ _ _ Hlog), !ctor_calls_app,
      (segments_ctor_calls _ _ _ Hsegs), (destroyed_ctor_calls _ _ Hdes).
    pose proof (started_ctor_calls _ _ _ _ Hst). lia.
  - rewrite (since_logged _ _ _ Hlog).
    eapply ctor_aborted_ctor_calls; eauto.
  - rewrite (since_logged _ _ _ Hlog), !ctor_calls_app,
      (segments_ctor_calls _ _ _ Hsegs), (aborted_ctor_calls _ _ _ Hab).
    pose proof (started_ctor_calls _ _ _ _ Hst). lia.
  - unfold since. rewrite skipn_all. unfold ctor_calls. simpl. lia.
  - rewrite (since_logged _ _ _ Hlog), !ctor_calls_app,
      (segments_ctor_calls _ _ _ Hsegs), (pending_ctor_calls _ _ Hpe).
    pose proof (started_ctor_calls _ _ _ _ Hst). lia.
Qed.

(** X2.  Over the whole life of a process, whatever the platform, the
    number and the ranges of the calls of [rand], and the replies of the
    OS, a constructor of [RandomLayer] exchanges with the OS at most
    once (one lookup of [ProcessPrng], or one [fopen]): the static object
    is constructed by the first call and by no later one. *)
Theorem static_layer_constructed_once (p : platform) (d : remapping)
    (reqs : list (Z * Z)) (replies : list os_reply) :
  (ctor_calls (trace (final_state (run p d reqs (boot replies)))) <= 1)%nat.
Proof.
  destruct reqs as [| req reqs].
  - unfold ctor_calls. simpl. lia.
  - pose proof (run_life p d (req :: reqs) (boot replies) ltac:(discriminate))
      as Hlife.
    apply life_ctor_calls in Hlife. exact Hlife.
Qed.

(** X4.  Once the static object exists, a call of [rand] keeps it: however
    the call ends, the object (its handle or function pointer) is the
    same afterwards, and the call makes no exchange of a constructor. *)
Theorem static_layer_kept (p : platform) (d : remapping) (min max : Z)
    (s : process) (l : RandomLayer) :
  layer s = Some l ->
  layer (final_state (rand p d min max s)) = Some l /\
  ctor_calls (since s (final_state (rand p d min max s))) = 0%nat.
Proof.
  intros Hl. pose proof (rand_exchange p d min max s) as He.
  destruct He as
      [l' ies ds es v s' Hst Hsegs Hlog Hl'
      | m ies s' Hn _ _ _
      | l' ies ds es tail m s' Hst Hsegs Hab Hlog Hl'
      | Hn _
      | l' ies ds es tail s' Hst Hsegs Hpe Hlog Hl' Hnil];
    try congruence; simpl final_state;
    destruct (started_again p s l ies Hl l' Hst) as [-> ->];
    (split; [exact Hl' |]); rewrite (since_logged _ _ _ Hlog); simpl app.
  - eapply segments_ctor_calls; eauto.
  - now rewrite ctor_calls_app, (segments_ctor_calls _ _ _ Hsegs),
      (aborted_ctor_calls _ _ _ Hab).
  - now rewrite ctor_calls_app, (segments_ctor_calls _ _ _ Hsegs),
      (pending_ctor_calls _ _ Hpe).
Qed.

Lemma static_layer_kept_witness :
  layer (final_state
           (rand Posix NearlyDivisionless 1 6 example_running_process))
  = Some (PosixLayer 7) /\
  ctor_calls
    (since example_running_process
       (final_state
          (rand Posix NearlyDivisionless 1 6 example_running_process)))
  = 0%nat.
Proof.
  apply (static_layer_kept Posix NearlyDivisionless 1 6
           example_running_process (PosixLayer 7)).
  reflexivity.
Defined.

(** ** How much a call of [rand] asks of the OS *)

Lemma segment_length l x es :
  segment l x es -> (1 <= List.length es <= RETRY_MAX)%nat.
Proof.
  destruct 1 as [fn r Hr | shorts r HF Hlen Hr | f r Hr];
    try (unfold RETRY_MAX; simpl; lia).
  unfold getrandom_entries. rewrite length_app, length_map. simpl. lia.
Qed.

Lemma segments_calls l ds es :
  segments l ds es ->
  (List.length ds <= List.length es <= RETRY_MAX * List.length ds)%nat.
Proof.
  induction 1 as [| x es ds es' Hseg _ IH]; [simpl; lia |].
  apply segment_length in Hseg. rewrite length_app. simpl List.length. lia.
Qed.

Lemma started_length p s l ies : started p s l ies -> (List.length ies <= 1)%nat.
Proof.
  intros [[_ ->] | [_ H]]; [simpl; lia |]. destruct H; simpl; lia.
Qed.

(** X5.  A call of [rand] that returns has drawn at least one value from
    the OS during that very call (no draw is kept from one call to the
    next), and has made at most [RETRY_MAX] exchanges for each value
    drawn, besides the one of the constructor. *)
Theorem rand_draws_afresh (p : platform) (d : remapping) (min max : Z)
    (s : process) (v : Z) (s' : process) :
  rand p d min max s = Returned v s' ->
  (1 <= List.length (raw_draws (since s s')))%nat /\
  (List.length (since s s')
   <= 1 + RETRY_MAX * List.length (raw_draws (since s s')))%nat.
Proof.
  intros H. apply rand_Returned in H
    as (l & ies & ds & es & Hst & Hsegs & Hlog & _ & Hne & _).
  rewrite (since_logged _ _ _ Hlog), raw_draws_app.
  rewrite (started_raw_draws _ _ _ _ Hst), (segments_raw_draws _ _ _ Hsegs).
  simpl app. rewrite length_app.
  apply started_length in Hst. apply segments_calls in Hsegs. split.
  - destruct ds; [contradiction | simpl; lia].
  - lia.
Qed.

Lemma rand_draws_afresh_witness :
  exists s',
    rand Linux NearlyDivisionless 1 6 example_linux_process = Returned 5 s' /\
    (1 <= List.length (raw_draws (since example_linux_process s')))%nat.
Proof.
  eexists. split; [vm_compute; reflexivity |].
  apply (rand_draws_afresh Linux NearlyDivisionless 1 6
           example_linux_process 5 _ eq_refl).
Defined.

(** ** The range of the result when the bounds are inverted *)

Lemma wrap32_shift_back (x a : Z) : wrap32 (wrap32 (x + a) - a) = wrap32 x.
Proof.
  unfold wrap32. rewrite Zminus_mod_idemp_l. f_equal. lia.
Qed.

Section WrappedRange.

Context {St : Type}.
Variable urng : M St Z.
Hypothesis urng_bounded :
  forall s x s', urng s = Returned x s' -> 0 <= x <= UINT32_MAX.

Lemma uniform_wrapped_range (d : remapping) (a b : Z) fuel s v s' :
  uniform_int_distribution_call urng d a b fuel s = Returned v s' ->
  0 <= v <= UINT32_MAX /\ wrap32 (v - a) <= wrap32 (b - a).
Proof.
  intros H. unfold uniform_int_distribution_call in H. cbv zeta in H.
  apply bind_Returned in H as (ret & s1 & H & Hv).
  apply mret_Returned in Hv as [<- _].
  split; [apply wrap32_range |].
  pose proof (wrap32_range (b - a)) as Hu.
  rewrite urngrange_eq in H.
  destruct (UINT32_MAX >? wrap32 (b - a)) eqn:E.
  - rewrite Z.gtb_ltb in E. apply Z.ltb_lt in E.
    rewrite (wrap32_small (wrap32 (b - a) + 1)) in H by lia.
    assert (Hret : 0 <= ret < wrap32 (b - a) + 1).
    { destruct d.
      - apply (S_nd_range urng urng_bounded) in H; [exact H | lia].
      - apply bind_Returned in H as (r & s2 & H & Hr).
        apply mret_Returned in Hr as [<- _].
        apply two_div_do_while_range in H.
        assert (Hs : 0 < UINT32_MAX / (wrap32 (b - a) + 1)).
        { apply Z.div_str_pos. lia. }
        assert (Hm : (wrap32 (b - a) + 1)
                     * (UINT32_MAX / (wrap32 (b - a) + 1)) <= UINT32_MAX).
        { apply Z.mul_div_le. lia. }
        rewrite wrap32_small in H by nia.
        split.
        + apply Z.div_pos; lia.
        + apply Z.div_lt_upper_bound; [exact Hs | lia]. }
    rewrite wrap32_shift_back, wrap32_small; lia.
  - rewrite Z.gtb_ltb in E. apply Z.ltb_ge in E.
    pose proof (wrap32_range (wrap32 (ret + a) - a)). lia.
Qed.

End WrappedRange.

(** X6.  What [rand] returns when nothing is required of its arguments:
    for any 32-bit [min] and [max], in order or inverted, the value [v]
    returned is a 32-bit value that lies at most [max - min] (modulo
    [2^32]) above [min] (modulo [2^32]); for [min > max] that is the
    range which runs from [min] up to [2^32 - 1] and on from 0 to
    [max]. *)
Theorem rand_wrapped_range (p : platform) (d : remapping) (min max : Z)
    (s : process) (v : Z) (s' : process) :
  rand p d min max s = Returned v s' ->
  is_uint32 v /\ wrap32 (v - min) <= wrap32 (max - min).
Proof.
  intros H. unfold rand in H.
  apply bind_Returned in H as (l & s1 & _ & H).
  exact (uniform_wrapped_range _ (RandomLayer_call_bounded l) _ _ _ _ _ _ _ H).
Qed.

Lemma rand_wrapped_range_witness :
  exists s',
    rand Linux NearlyDivisionless 5 3 (served Linux [3000000000])
    = Returned 3000000004 s' /\
    wrap32 (3000000004 - 5) <= wrap32 (3 - 5).
Proof.
  eexists. split; [vm_compute; reflexivity |].
  apply (rand_wrapped_range Linux NearlyDivisionless 5 3
           (served Linux [3000000000]) 3000000004 _ eq_refl).
Defined.

(** ** The Linux variant, from first call to exit *)






(** ** A series of calls *)

Lemma rands_within (p : platform) (d : remapping) (reqs : list (Z * Z)) :
  forall s vs s',
    Forall valid_request reqs ->
    rands p d reqs s = Returned vs s' ->
    Forall2 within reqs vs.
Proof.
  induction reqs as [| [min max] reqs IH]; intros s vs s' Hv H.
  - simpl in H. apply mret_Returned in H as [<- _]. constructor.
  - inversion Hv as [| ? ? (Hmin & Hmax & Hle) Hv']; subst.
    cbn [rands] in H.
    apply bind_Returned in H as (v & s1 & Hr & H).
    apply bind_Returned in H as (vs' & s2 & Hrs & H).
    apply mret_Returned in H as [<- _].
    constructor.
    + eapply rand_range; eauto.
    + eapply IH; eauto.
Qed.

(** X7.  A process that makes a series of calls of [rand] with valid
    bounds and exits gets one value for each call, in the order of the
    calls, and each value lies within the bounds of its own call: calls
    that share the static object do not disturb one another. *)
Theorem run_within (p : platform) (d : remapping) (reqs : list (Z * Z))
    (s : process) (vs : list Z) (s' : process) :
  Forall valid_request reqs ->
  run p d reqs s = Returned vs s' ->
  Forall2 within reqs vs.
Proof.
  intros Hv H. unfold run in H.
  apply bind_Returned in H as (vs' & s1 & Hrs & H).
  apply bind_Returned in H as (u & s2 & _ & H).
  apply mret_Returned in H as [<- _].
  eapply rands_within; eauto.
Qed.

Lemma run_within_witness :
  exists s',
    run Posix NearlyDivisionless [(1, 6); (1, 6)] (boot example_replies)
    = Returned [1; 6] s' /\
    Forall2 within [(1, 6); (1, 6)] [1; 6].
Proof.
  eexists. split; [vm_compute; reflexivity |].
  eapply (run_within Posix NearlyDivisionless [(1, 6); (1, 6)]
            (boot example_replies) [1; 6]).
  - repeat constructor; unfold is_uint32, UINT32_MAX; simpl; lia.
  - vm_compute. reflexivity.
Defined.
